(** * Link integrity of the grammar wiki: a shallow embedding

    The scripts of [doc/Structure] keep a file-per-production Zim wiki
    consistent: [verify_forward_links.py] and [verify_backlinks.py] resolve
    and repair links, [fix_all_links.py] rewrites links to full paths, and
    [check_links.py] / [find_broken_links.py] report links whose file is
    missing.  This development embeds their functions and proves what the
    design document says about them.

    Python [str] values are lists of characters ([str]); a [pathlib.Path]
    is the list of its parts below the file-system root; dictionaries are
    [gmap]s; the file tree is read through an existence oracle and a map
    from paths to file contents that the fix operations update. *)

From Stdlib Require Import Ascii String.
From stdpp Require Import base decidable option list strings gmap sorting.

Local Open Scope char_scope.
Local Open Scope list_scope.

(** ** Python strings *)

Module Py.

Abbreviation str := (list ascii).

(** A string literal of the source. *)
Definition py (s : string) : str := list_ascii_of_string s.

(** [c in s] for a one-character [c]. *)
Definition contains (c : ascii) (s : str) : bool := bool_decide (c ∈ s).

(** [s.split(c)] for a one-character separator: never empty, one more
    piece than there are separators. *)
Fixpoint split (c : ascii) (s : str) : list str :=
  match s with
  | [] => [[]]
  | x :: s' =>
      if decide (x = c) then [] :: split c s'
      else match split c s' with
           | [] => [[x]]
           | p :: ps => (x :: p) :: ps
           end
  end.

(** [sep.join(parts)]. *)
Fixpoint join (sep : str) (parts : list str) : str :=
  match parts with
  | [] => []
  | [p] => p
  | p :: ps => p ++ sep ++ join sep ps
  end.

(** [s.replace(a, b)] for one-character [a] and [b]. *)
Definition replace (a b : ascii) (s : str) : str :=
  map (fun x => if decide (x = a) then b else x) s.

(** [s.startswith(p)]. *)
Fixpoint startswith (p s : str) : bool :=
  match p, s with
  | [], _ => true
  | _ :: _, [] => false
  | a :: p', x :: s' => bool_decide (a = x) && startswith p' s'
  end.

(** [s.endswith(p)]. *)
Definition endswith (p s : str) : bool := startswith (reverse p) (reverse s).

(** [s.find(needle)]: the least index at which [needle] starts, if any. *)
Fixpoint find (needle s : str) : option nat :=
  if startswith needle s then Some 0
  else match s with
       | [] => None
       | _ :: s' => S <$> find needle s'
       end.

(** [needle in s]. *)
Definition contains_str (needle s : str) : bool :=
  bool_decide (is_Some (find needle s)).

(** [s.rfind(c)] for a one-character [c]. *)
Fixpoint rfind (c : ascii) (s : str) : option nat :=
  match s with
  | [] => None
  | x :: s' =>
      match rfind c s' with
      | Some i => Some (S i)
      | None => if decide (x = c) then Some 0 else None
      end
  end.

(** The characters [str.strip()] removes and [\s] matches, for the code
    points below 256. *)
Definition is_space (x : ascii) : bool :=
  let n := nat_of_ascii x in
  bool_decide (9 ≤ n ≤ 13) || bool_decide (28 ≤ n ≤ 32)
  || bool_decide (n = 133) || bool_decide (n = 160).

Fixpoint lstrip (s : str) : str :=
  match s with
  | x :: s' => if is_space x then lstrip s' else s
  | [] => []
  end.

(** [s.strip()]. *)
Definition strip (s : str) : str := reverse (lstrip (reverse (lstrip s))).

(** [s.lower()], for the code points below 256. *)
Definition lower_char (x : ascii) : ascii :=
  let n := nat_of_ascii x in
  if bool_decide (65 ≤ n ≤ 90) || (bool_decide (192 ≤ n ≤ 222) && negb (bool_decide (n = 215)))
  then ascii_of_nat (n + 32) else x.

Definition lower (s : str) : str := map lower_char s.

(** The longest prefix of [s] whose characters all satisfy [p], and the rest. *)
Fixpoint span (p : ascii → bool) (s : str) : str * str :=
  match s with
  | x :: s' => if p x then let '(a, b) := span p s' in (x :: a, b) else ([], s)
  | [] => ([], [])
  end.

(** [str] comparison, by code point. *)
Fixpoint str_ltb (a b : str) : bool :=
  match a, b with
  | _, [] => false
  | [], _ :: _ => true
  | x :: a', y :: b' =>
      if decide (x = y) then str_ltb a' b'
      else bool_decide (nat_of_ascii x < nat_of_ascii y)
  end.

Definition str_leb (a b : str) : bool := negb (str_ltb b a).

(** [sorted(l)] under the order [leb]: Python's sort is stable, as is this
    insertion sort, which puts an element before the first one it is not
    greater than. *)
Fixpoint insert_sorted {A} (leb : A → A → bool) (x : A) (l : list A) : list A :=
  match l with
  | [] => [x]
  | y :: l' => if leb x y then x :: l else y :: insert_sorted leb x l'
  end.

Definition sorted {A} (leb : A → A → bool) (l : list A) : list A :=
  foldr (insert_sorted leb) [] l.

(** [sorted(l, key=key)] for a string-valued [key]. *)
Definition sorted_by {A} (key : A → str) (l : list A) : list A :=
  sorted (fun a b => str_leb (key a) (key b)) l.

End Py.
Import Py.

(** ** pathlib and the file tree *)

Module Pathlib.

(** A [Path] is absolute: the list of its parts below the root [/].  Pure
    path operations never collapse [..]; whether a path names something on
    disk is asked of the file system. *)
Abbreviation Path := (list str).

(** The parts of a path string: empty parts and [.] are dropped. *)
Definition parse_parts (s : str) : list str :=
  filter (fun p => p ≠ [] ∧ p ≠ py ".") (split "/" s).

(** [p / s]: an absolute [s] replaces [p].  A string that starts with
    exactly two slashes is read as one that starts with one. *)
Definition joinpath (p : Path) (s : str) : Path :=
  if startswith (py "/") s then parse_parts s else p ++ parse_parts s.

(** [p.parent]; the root is its own parent. *)
Definition parent (p : Path) : Path := removelast p.

(** [p.name]: the last part, empty for the root. *)
Definition name (p : Path) : str := List.last p [].

(** The suffix of a file name starts at its last dot, unless that dot is the
    first or the last character. *)
Definition suffix_at (n : str) : option nat :=
  match rfind "." n with
  | Some i => if bool_decide (0 < i < length n - 1) then Some i else None
  | None => None
  end.

Definition stem_of (n : str) : str :=
  match suffix_at n with
  | Some i => take i n
  | None => n
  end.

(** [p.stem]. *)
Definition stem (p : Path) : str := stem_of (name p).

(** [p.relative_to(base)]: [None] stands for the [ValueError] raised when
    [p] is not below [base]. *)
Fixpoint relative_to (p base : Path) : option Path :=
  match base, p with
  | [], _ => Some p
  | b :: base', x :: p' => if decide (x = b) then relative_to p' base' else None
  | _ :: _, [] => None
  end.

(** [p.with_suffix('')]: the name loses its suffix; [None] stands for the
    [ValueError] raised on an empty name. *)
Definition with_suffix_empty (p : Path) : option Path :=
  if decide (name p = []) then None else Some (removelast p ++ [stem p]).

(** Paths compare as the lists of their parts. *)
Fixpoint path_ltb (a b : Path) : bool :=
  match a, b with
  | _, [] => false
  | [], _ :: _ => true
  | x :: a', y :: b' => if decide (x = y) then path_ltb a' b' else str_ltb x y
  end.

Definition path_leb (a b : Path) : bool := negb (path_ltb b a).

End Pathlib.
Import Pathlib.

(** ** The link pattern *)

Module Re.

(** One match of the link pattern: the fields [find_all_links] records. *)
Record LinkInfo := mkLink {
  start : nat;
  end_ : nat;
  full_match : str;
  link_path : str;
  display_name : option str
}.

Definition not_close_or_bar (x : ascii) : bool :=
  negb (bool_decide (x = "]") || bool_decide (x = "|")).

Definition not_close (x : ascii) : bool := negb (bool_decide (x = "]")).

(** The pattern [\[\[([^\]|]+)(?:\|([^\]]+))?\]\]] tried at the head of [s],
    with the lookahead [(?!\+)] after the opening brackets when [no_plus]
    is set.  Both character classes are greedy and what follows them is a
    character they exclude, so backtracking finds nothing the longest runs
    do not.  The result is the target, the label and the length matched. *)
Definition match_link (no_plus : bool) (s : str) : option (str * option str * nat) :=
  if startswith (py "[[") s then
    let rest := drop 2 s in
    if no_plus && startswith (py "+") rest then None
    else
      let '(g1, r1) := span not_close_or_bar rest in
      if bool_decide (g1 = []) then None
      else if startswith (py "]]") r1 then Some (g1, None, 2 + length g1 + 2)
      else if startswith (py "|") r1 then
        let '(g2, r3) := span not_close (drop 1 r1) in
        if bool_decide (g2 = []) then None
        else if startswith (py "]]") r3
        then Some (g1, Some g2, 2 + length g1 + 1 + length g2 + 2)
        else None
      else None
  else None.

(** [re.finditer]: matches are found left to right and do not overlap;
    [skip] counts the characters of the current match still to pass and
    [pos] is the index of the head of [s] in the whole text. *)
Fixpoint finditer (no_plus : bool) (skip pos : nat) (s : str) : list LinkInfo :=
  match s with
  | [] => []
  | _ :: s' =>
      match skip with
      | S k => finditer no_plus k (S pos) s'
      | O =>
          match match_link no_plus s with
          | Some (p, d, n) =>
              mkLink pos (pos + n) (take n s) p d :: finditer no_plus (n - 1) (S pos) s'
          | None => finditer no_plus 0 (S pos) s'
          end
      end
  end.

(** [re.sub(pattern, repl, s)] with a function [repl]: text outside the
    matches is copied, each match is replaced by [repl] of it. *)
Fixpoint sub (no_plus : bool) (repl : LinkInfo → str) (skip pos : nat) (s : str) : str :=
  match s with
  | [] => []
  | x :: s' =>
      match skip with
      | S k => sub no_plus repl k (S pos) s'
      | O =>
          match match_link no_plus s with
          | Some (p, d, n) =>
              repl (mkLink pos (pos + n) (take n s) p d) ++ sub no_plus repl (n - 1) (S pos) s'
          | None => x :: sub no_plus repl 0 (S pos) s'
          end
      end
  end.

End Re.
Import Re.

(** The contents of the files of the tree, by path.  Reading a path that
    holds no file fails; the fix operations only overwrite contents, so the
    existence oracle is not part of this state. *)
Abbreviation FS := (gmap Path str).

(** ** verify_forward_links.py *)

Module ForwardLinks.

(** Outcome of [resolve_link_target]: the pair [(target, True)], the pair
    [(matches, False)] with a list, and [(None, False)]. *)
Inductive Resolution :=
  | Resolved (target : Path)
  | Ambiguous (candidates : list Path)
  | Unresolved.

(** An entry of [issues], by its ['type']. *)
Inductive Issue :=
  | unresolved (link_info : LinkInfo)
  | ambiguous (link_info : LinkInfo) (candidates : list Path)
  | wrong_format (link_info : LinkInfo) (target : Path) (correct_format : str).

Definition is_wrong_format (i : Issue) : bool :=
  match i with wrong_format _ _ _ => true | _ => false end.

Definition issue_link (i : Issue) : LinkInfo :=
  match i with
  | unresolved l | ambiguous l _ | wrong_format l _ _ => l
  end.

(** [issue['correct_format']]: only issues of type wrong_format have it,
    and the fix loop reads it from no other; for the other types the text of
    the link stands in. *)
Definition issue_text (i : Issue) : str :=
  match i with
  | wrong_format _ _ c => c
  | unresolved l | ambiguous l _ => full_match l
  end.

Section verify_forward_links.

(** [STRUCTURE_DIR], the corpus root, and [Path.exists] on this machine. *)
Variable STRUCTURE_DIR : Path.
Variable exists_ : Path → bool.

(** [os.walk] yields each directory with the names of its files. *)
Definition get_all_txt_files (walk : list (Path * list str)) : list Path :=
  flat_map (fun '(root, filenames) =>
    map (joinpath root) (filter (fun f => endswith (py ".txt") f = true) filenames)) walk.

Definition get_content_section (content : str) : str * str :=
  match find (py "===== Backlinks =====") content with
  | Some i => (take i content, drop i content)
  | None => (content, [])
  end.

(** The loop [for i, part in enumerate(parts)] of the qualified branch. *)
Fixpoint walk_parts (target : Path) (i n : nat) (parts : list str) : Path :=
  match parts with
  | [] => target
  | part :: rest =>
      walk_parts
        (if bool_decide (i < n - 1) then joinpath target part
         else joinpath target (part ++ py ".txt"))
        (S i) n rest
  end.

Definition resolve_link_target (link_path : str) (source_file : Path)
    (name_to_files : gmap str (list Path)) : Resolution :=
  let source_dir := parent source_file in
  let found :=
    if contains ":" link_path then
      let parts := split ":" link_path in
      let target := walk_parts STRUCTURE_DIR 0 (length parts) parts in
      if exists_ target then Some target else None
    else
      let target := joinpath source_dir (link_path ++ py ".txt") in
      if exists_ target then Some target else None in
  match found with
  | Some target => Resolved target
  | None =>
      let name :=
        if contains ":" link_path then List.last (split ":" link_path) []
        else link_path in
      match name_to_files !! name with
      | Some matches =>
          match matches with
          | [m] => Resolved m
          | _ :: _ :: _ => Ambiguous matches
          | [] => Unresolved
          end
      | None => Unresolved
      end
  end.

(** [None] stands for the [ValueError] of [relative_to] or [with_suffix]. *)
Definition get_correct_link_format (source_file target_file : Path)
    (display_name : option str) : option str :=
  let source_dir := parent source_file in
  let target_dir := parent target_file in
  let target_name := stem target_file in
  let needs_custom_display :=
    match display_name with
    | Some d => bool_decide (d ≠ []) && bool_decide (d ≠ target_name)
    | None => false
    end in
  let display_name := default [] display_name in
  if decide (source_dir = target_dir) then
    if needs_custom_display
    then Some (py "[[" ++ target_name ++ py "|" ++ display_name ++ py "]]")
    else Some (py "[[" ++ target_name ++ py "]]")
  else
    rel ← relative_to target_file STRUCTURE_DIR;
    rel_parts ← with_suffix_empty rel;
    let path := join (py ":") rel_parts in
    if needs_custom_display
    then Some (py "[[" ++ path ++ py "|" ++ display_name ++ py "]]")
    else Some (py "[[" ++ path ++ py "|" ++ target_name ++ py "]]").

Definition find_all_links (content : str) : list LinkInfo :=
  finditer true 0 0 content.

(** The body of the loop over [links]: the issue a link adds, if any. *)
Definition check_link (source_file : Path) (name_to_files : gmap str (list Path))
    (link_info : LinkInfo) : option (list Issue) :=
  match resolve_link_target (link_path link_info) source_file name_to_files with
  | Unresolved => Some [unresolved link_info]
  | Ambiguous candidates => Some [ambiguous link_info candidates]
  | Resolved target_file =>
      correct_format ← get_correct_link_format source_file target_file (display_name link_info);
      Some (if decide (full_match link_info = correct_format) then []
            else [wrong_format link_info target_file correct_format])
  end.

Fixpoint collect_issues (source_file : Path) (name_to_files : gmap str (list Path))
    (links : list LinkInfo) : option (list Issue) :=
  match links with
  | [] => Some []
  | l :: rest =>
      here ← check_link source_file name_to_files l;
      later ← collect_issues source_file name_to_files rest;
      Some (here ++ later)
  end.

(** One replacement of the fix loop, by slicing. *)
Definition apply_fix (new_content : str) (issue : Issue) : str :=
  take (start (issue_link issue)) new_content
    ++ issue_text issue
    ++ drop (end_ (issue_link issue)) new_content.

(** [fixable_issues.sort(key=start, reverse=True)]. *)
Definition sort_reverse_start (l : list Issue) : list Issue :=
  sorted (fun a b => bool_decide (start (issue_link b) ≤ start (issue_link a))) l.

(** Returns [(len(issues), fixed_count)] and the file tree afterwards. *)
Definition check_and_fix_file (source_file : Path) (name_to_files : gmap str (list Path))
    (fix_mode : bool) (fs : FS) : option (nat * nat * FS) :=
  content ← fs !! source_file;
  let '(content_section, backlinks_section) := get_content_section content in
  let links := find_all_links content_section in
  issues ← collect_issues source_file name_to_files links;
  match issues with
  | [] => Some (0, 0, fs)
  | _ :: _ =>
      if fix_mode then
        let fixable_issues := sort_reverse_start (filter (fun i => is_wrong_format i = true) issues) in
        let new_content := foldl apply_fix content_section fixable_issues in
        let fixed_count := length fixable_issues in
        if bool_decide (0 < fixed_count)
        then Some (length issues, fixed_count,
                   <[source_file := new_content ++ backlinks_section]> fs)
        else Some (length issues, fixed_count, fs)
      else Some (length issues, 0, fs)
  end.

(** [name_to_files[f.stem].append(f)] over [files], on a [defaultdict(list)]. *)
Definition build_name_index (files : list Path) : gmap str (list Path) :=
  foldl (fun m f => <[stem f := default [] (m !! stem f) ++ [f]]> m) ∅ files.

(** The loop of [main] over [sorted(files)], threading the totals and the
    file tree. *)
Fixpoint check_all (name_to_files : gmap str (list Path)) (fix_mode : bool)
    (files : list Path) (total_issues total_fixed : nat) (fs : FS)
    : option (nat * nat * FS) :=
  match files with
  | [] => Some (total_issues, total_fixed, fs)
  | source_file :: rest =>
      '(issues, fixed, fs') ← check_and_fix_file source_file name_to_files fix_mode fs;
      if bool_decide (0 < issues)
      then check_all name_to_files fix_mode rest (total_issues + issues) (total_fixed + fixed) fs'
      else check_all name_to_files fix_mode rest total_issues total_fixed fs'
  end.

(** The result of a run: the exit code, the totals of the summary and the
    file tree it leaves. *)
Record Run := mkRun {
  exit_code : nat;
  total_issues : nat;
  total_fixed : nat;
  final_fs : FS
}.

Definition main (fix_mode : bool) (walk : list (Path * list str)) (fs : FS) : option Run :=
  let files := get_all_txt_files walk in
  let name_to_files := build_name_index files in
  '(issues, fixed, fs') ← check_all name_to_files fix_mode (sorted path_leb files) 0 0 fs;
  Some (mkRun (if bool_decide (issues = 0) then 0 else 1) issues fixed fs').

End verify_forward_links.

End ForwardLinks.

(** ** verify_backlinks.py *)

Module Backlinks.

(** The header of the backlinks section followed by its newline, as the
    patterns of this script require it. *)
Definition header : str := py "===== Backlinks =====" ++ ["010"].

(** An entry of [issues]. *)
Record Issue := mkIssue {
  file : Path;
  missing : gset Path;
  extra : gset Path;
  expected : list Path
}.

Section verify_backlinks.

Variable STRUCTURE_DIR : Path.
Variable exists_ : Path → bool.

Definition get_all_txt_files (walk : list (Path * list str)) : list Path :=
  flat_map (fun '(root, filenames) =>
    map (joinpath root) (filter (fun f => endswith (py ".txt") f = true) filenames)) walk.

Definition extract_links (content : str) (file_path : Path) : list str :=
  let content :=
    match find (py "===== Backlinks =====") content with
    | Some i => take i content
    | None => content
    end in
  map link_path (finditer true 0 0 content).

Fixpoint walk_parts (target : Path) (i n : nat) (parts : list str) : Path :=
  match parts with
  | [] => target
  | part :: rest =>
      walk_parts
        (if bool_decide (i < n - 1) then joinpath target part
         else joinpath target (part ++ py ".txt"))
        (S i) n rest
  end.

Definition resolve_link (link : str) (source_file : Path)
    (name_to_files : gmap str (list Path)) : option Path :=
  let source_dir := parent source_file in
  let found :=
    if contains ":" link then
      let parts := split ":" link in
      let target := walk_parts STRUCTURE_DIR 0 (length parts) parts in
      if exists_ target then Some target else None
    else
      let target := joinpath source_dir (link ++ py ".txt") in
      if exists_ target then Some target else None in
  match found with
  | Some target => Some target
  | None =>
      let target_name :=
        if contains ":" link then List.last (split ":" link) [] else link in
      match name_to_files !! target_name with
      | Some [m] => Some m
      | _ => None
      end
  end.

(** [None] stands for the [ValueError] of [relative_to] or [with_suffix]. *)
Definition get_link_format (source_file target_file : Path) : option str :=
  let source_dir := parent source_file in
  let target_dir := parent target_file in
  let target_name := stem target_file in
  if decide (source_dir = target_dir) then
    Some (py "[[" ++ target_name ++ py "]]")
  else
    rel ← relative_to target_file STRUCTURE_DIR;
    rel_parts ← with_suffix_empty rel;
    let path := join (py ":") rel_parts in
    Some (py "[[" ++ path ++ py "|" ++ target_name ++ py "]]").

(** The loop building [links] in [fix_backlinks_in_file]. *)
Fixpoint format_all (target_file : Path) (sources : list Path) : option (list str) :=
  match sources with
  | [] => Some []
  | source :: rest =>
      link ← get_link_format target_file source;
      links ← format_all target_file rest;
      Some (link :: links)
  end.

(** Returns whether the file had a backlinks section, and the file tree
    afterwards. *)
Definition fix_backlinks_in_file (target_file : Path) (expected_sources : list Path)
    (fs : FS) : option (bool * FS) :=
  content ← fs !! target_file;
  match find header content with
  | None => Some (false, fs)
  | Some i =>
      let content_before := take i content in
      new_backlinks ←
        match expected_sources with
        | [] => Some (py "(no backlinks)" ++ ["010"])
        | _ :: _ =>
            links ← format_all target_file (sorted_by stem expected_sources);
            Some (join ["010"] links ++ ["010"])
        end;
      let new_content := content_before ++ header ++ new_backlinks in
      Some (true, <[target_file := new_content]> fs)
  end.

Definition build_name_index (files : list Path) : gmap str (list Path) :=
  foldl (fun m f => <[stem f := default [] (m !! stem f) ++ [f]]> m) ∅ files.

(** First pass of [main]: [reverse_links[target].append(source)] for every
    link that resolves.  The list of unresolved links is only printed. *)
Definition add_links (name_to_files : gmap str (list Path)) (source_file : Path)
    (links : list str) (reverse_links : gmap Path (list Path)) : gmap Path (list Path) :=
  foldl (fun m link =>
    match resolve_link link source_file name_to_files with
    | Some target_file => <[target_file := default [] (m !! target_file) ++ [source_file]]> m
    | None => m
    end) reverse_links links.

Fixpoint build_reverse_links (name_to_files : gmap str (list Path)) (files : list Path)
    (fs : FS) (reverse_links : gmap Path (list Path)) : option (gmap Path (list Path)) :=
  match files with
  | [] => Some reverse_links
  | source_file :: rest =>
      content ← fs !! source_file;
      build_reverse_links name_to_files rest fs
        (add_links name_to_files source_file (extract_links content source_file) reverse_links)
  end.

(** [set(l)] as a finite set; [list(s)] takes its elements in some order,
    which Python leaves unspecified. *)
Definition to_set (l : list Path) : gset Path := list_to_set l.

(** The body of the second pass: the issue of one file, if it has one. *)
Definition check_backlinks (name_to_files : gmap str (list Path))
    (reverse_links : gmap Path (list Path)) (target_file : Path) (fs : FS)
    : option (list Issue) :=
  content ← fs !! target_file;
  match find header content with
  | None => Some []
  | Some i =>
      let current_backlinks_text := strip (drop (i + length header) content) in
      let current_links := map link_path (finditer false 0 0 current_backlinks_text) in
      let expected_sources := default [] (reverse_links !! target_file) in
      let expected_sources := sorted_by stem (elements (to_set expected_sources)) in
      let current_set : gset Path :=
        list_to_set (omap (fun link => resolve_link link target_file name_to_files) current_links) in
      let expected_set := to_set expected_sources in
      let is_no_backlinks :=
        contains_str (py "no backlinks") (lower current_backlinks_text)
        || contains_str (py "root production") (lower current_backlinks_text) in
      if bool_decide (current_set ≠ expected_set)
         || (is_no_backlinks && bool_decide (expected_set ≠ ∅))
      then Some [mkIssue target_file (expected_set ∖ current_set)
                         (current_set ∖ expected_set) expected_sources]
      else Some []
  end.

Fixpoint check_all (name_to_files : gmap str (list Path))
    (reverse_links : gmap Path (list Path)) (files : list Path) (fs : FS)
    : option (list Issue) :=
  match files with
  | [] => Some []
  | target_file :: rest =>
      here ← check_backlinks name_to_files reverse_links target_file fs;
      later ← check_all name_to_files reverse_links rest fs;
      Some (here ++ later)
  end.

(** The loop over [issues] in fix mode. *)
Fixpoint fix_all (issues : list Issue) (fs : FS) : option FS :=
  match issues with
  | [] => Some fs
  | issue :: rest =>
      '(_, fs') ← fix_backlinks_in_file (file issue) (expected issue) fs;
      fix_all rest fs'
  end.

(** The result of a run: the exit code, the issues found and the file tree
    it leaves. *)
Record Run := mkRun {
  exit_code : nat;
  issues : list Issue;
  final_fs : FS
}.

Definition main (fix_mode : bool) (walk : list (Path * list str)) (fs : FS) : option Run :=
  let files := get_all_txt_files walk in
  let name_to_files := build_name_index files in
  reverse_links ← build_reverse_links name_to_files files fs ∅;
  issues ← check_all name_to_files reverse_links (sorted path_leb files) fs;
  match issues with
  | [] => Some (mkRun 0 [] fs)
  | _ :: _ =>
      fs' ← (if fix_mode then fix_all issues fs else Some fs);
      Some (mkRun 1 issues fs')
  end.

End verify_backlinks.

End Backlinks.

(** ** os.path, for the scripts that handle paths as strings *)

Module OsPath.

(** [BASE_DIR], the same constant in the three scripts that use it. *)
Definition BASE_DIR : str :=
  py "/home/dhk/projects/verilog-1800-2003-tests/doc/Structure".

(** [os.path.join(a, b)]: an absolute [b] discards [a]. *)
Definition os_path_join (a b : str) : str :=
  if startswith (py "/") b then b
  else if bool_decide (a = []) || endswith (py "/") a then a ++ b
  else a ++ py "/" ++ b.

(** [os.walk(BASE_DIR)] visits the directories below [BASE_DIR]; each is
    given here by its parts below [BASE_DIR], with the names of its files.
    [walk_root] is the [root] string of such a directory and [rel_path] is
    [os.path.relpath(os.path.join(root, filename), BASE_DIR)]. *)
Definition walk_root (parts : list str) : str := foldl os_path_join BASE_DIR parts.

Definition rel_path (parts : list str) (filename : str) : str :=
  join (py "/") (parts ++ [filename]).

(** [s[:-4]]. *)
Definition drop_last4 (s : str) : str := take (length s - 4) s.

(** The contents of the files, by path string. *)
Abbreviation SFS := (gmap str str).

End OsPath.
Import OsPath.

(** ** fix_all_links.py *)

Module FixAllLinks.

Definition is_element_char (x : ascii) : bool :=
  let n := nat_of_ascii x in
  bool_decide (97 ≤ n ≤ 122) || bool_decide (48 ≤ n ≤ 57) || bool_decide (x = "_").

(** The pattern of [build_element_index] tried at the head of [s]: a run of
    element characters, optional white space, then [::=].  Both runs are
    greedy and are followed by a character they exclude. *)
Definition match_element (s : str) : option str :=
  let '(g, r) := span is_element_char s in
  match g with
  | [] => None
  | _ :: _ =>
      let '(_, r2) := span is_space r in
      if startswith (py "::=") r2 then Some g else None
  end.

(** [re.search] of that pattern with [re.MULTILINE]: the first line start at
    which it matches; [bol] tells whether the head of [s] starts a line. *)
Fixpoint search_element (bol : bool) (s : str) : option str :=
  match s with
  | [] => None
  | x :: s' =>
      match (if bol then match_element s else None) with
      | Some g => Some g
      | None => search_element (bool_decide (x = "010")) s'
      end
  end.

Section fix_all_links.

(** [os.path.isfile] on this machine. *)
Variable isfile : str → bool.

(** The body of the inner loop of [build_element_index] for one file. *)
Definition index_file (parts : list str) (filename : str) (fs : SFS)
    (elements : gmap str str) : option (gmap str str) :=
  if negb (endswith (py ".txt") filename) || endswith (py ".py") filename
  then Some elements
  else
    let filepath := os_path_join (walk_root parts) filename in
    let zim_path := replace "/" ":" (drop_last4 (rel_path parts filename)) in
    content ← fs !! filepath;
    let elements :=
      match search_element true content with
      | Some element_name => <[element_name := zim_path]> elements
      | None => elements
      end in
    let base_name := replace " " "_" (drop_last4 filename) in
    Some (match elements !! base_name with
          | Some _ => elements
          | None => <[base_name := zim_path]> elements
          end).

Fixpoint index_files (parts : list str) (filenames : list str) (fs : SFS)
    (elements : gmap str str) : option (gmap str str) :=
  match filenames with
  | [] => Some elements
  | filename :: rest =>
      elements' ← index_file parts filename fs elements;
      index_files parts rest fs elements'
  end.

Fixpoint index_walk (walk : list (list str * list str)) (fs : SFS)
    (elements : gmap str str) : option (gmap str str) :=
  match walk with
  | [] => Some elements
  | (parts, filenames) :: rest =>
      elements' ← index_files parts filenames fs elements;
      index_walk rest fs elements'
  end.

Definition build_element_index (walk : list (list str * list str)) (fs : SFS)
    : option (gmap str str) :=
  index_walk walk fs ∅.

(** The inner function [replace_link] of [fix_file]; [display_name] is
    [group(3)], present exactly when [group(2)] is. *)
Definition replace_link (elements : gmap str str) (m : LinkInfo) : str :=
  let link_path := link_path m in
  let label := display_name m in
  if startswith (py "+") link_path then full_match m
  else
    let element_name :=
      if contains ":" link_path then
        let file_path := replace ":" "/" link_path ++ py ".txt" in
        let full_path := os_path_join BASE_DIR file_path in
        if isfile full_path then None
        else Some (List.last (split ":" link_path) [])
      else Some link_path in
    match element_name with
    | None => full_match m
    | Some element_name =>
        match elements !! element_name with
        | Some target_zim =>
            match label with
            | Some (_ :: _ as label) => py "[[" ++ target_zim ++ py "|" ++ label ++ py "]]"
            | _ => py "[[" ++ target_zim ++ py "|" ++ element_name ++ py "]]"
            end
        | None => full_match m
        end
    end.

(** Returns whether the file was rewritten, and the file tree afterwards. *)
Definition fix_file (filepath : str) (elements : gmap str str) (fs : SFS)
    : option (bool * SFS) :=
  content ← fs !! filepath;
  let original := content in
  let content := sub false (replace_link elements) 0 0 content in
  if decide (content ≠ original)
  then Some (true, <[filepath := content]> fs)
  else Some (false, fs).

(** The loops of [main] over the listing: [fixed] counts the files that
    [fix_file] rewrote. *)
Fixpoint fix_files (parts : list str) (filenames : list str) (elements : gmap str str)
    (fs : SFS) (fixed : nat) : option (nat * SFS) :=
  match filenames with
  | [] => Some (fixed, fs)
  | filename :: rest =>
      if negb (endswith (py ".txt") filename) || endswith (py ".py") filename
      then fix_files parts rest elements fs fixed
      else
        let filepath := os_path_join (walk_root parts) filename in
        '(changed, fs') ← fix_file filepath elements fs;
        fix_files parts rest elements fs' (if changed : bool then fixed + 1 else fixed)
  end.

Fixpoint fix_walk (walk : list (list str * list str)) (elements : gmap str str)
    (fs : SFS) (fixed : nat) : option (nat * SFS) :=
  match walk with
  | [] => Some (fixed, fs)
  | (parts, filenames) :: rest =>
      '(fixed', fs') ← fix_files parts filenames elements fs fixed;
      fix_walk rest elements fs' fixed'
  end.

(** Returns the total it prints and the file tree it leaves. *)
Definition main (walk : list (list str * list str)) (fs : SFS) : option (nat * SFS) :=
  elements ← build_element_index walk fs;
  fix_walk walk elements fs 0.

End fix_all_links.

End FixAllLinks.

(** ** check_links.py and find_broken_links.py *)

Module CheckLinks.

Section check_links.

Variable isfile : str → bool.

(** A line of the report of [check_links.py]: the status is [OK] when
    [exists_] holds and [BROKEN] otherwise. *)
Record Report := mkReport {
  exists_ : bool;
  reported_path : str;
  reported_label : option str;
  expected_file : str
}.

(** [check_file] of [check_links.py] on the content read from [filepath]:
    the lines it prints, one per link. *)
Definition check_file (filepath : str) (fs : SFS) : option (list Report) :=
  content ← fs !! filepath;
  Some (map (fun m =>
    let file_path := replace ":" "/" (link_path m) ++ py ".txt" in
    let full_path := os_path_join BASE_DIR file_path in
    mkReport (isfile full_path) (link_path m) (display_name m) file_path)
    (finditer false 0 0 content)).

End check_links.

End CheckLinks.

Module FindBrokenLinks.

Section find_broken_links.

Variable isfile : str → bool.

(** An entry of [broken]. *)
Record Broken := mkBroken {
  link : str;
  path : str;
  label : option str;
  expected : str
}.

(** [check_file] of [find_broken_links.py]: the broken links of a file. *)
Definition check_file (filepath : str) (fs : SFS) : option (list Broken) :=
  content ← fs !! filepath;
  Some (omap (fun m =>
    let file_path := replace ":" "/" (link_path m) ++ py ".txt" in
    let full_path := os_path_join BASE_DIR file_path in
    if negb (isfile full_path)
    then Some (mkBroken (full_match m) (link_path m) (display_name m) file_path)
    else None)
    (finditer false 0 0 content)).

(** The loops of [main]: [all_broken] pairs the relative path of each file
    that has broken links with them. *)
Fixpoint check_files (parts : list str) (filenames : list str) (fs : SFS)
    : option (list (str * list Broken)) :=
  match filenames with
  | [] => Some []
  | filename :: rest =>
      if negb (endswith (py ".txt") filename) || endswith (py ".py") filename
      then check_files parts rest fs
      else
        let filepath := os_path_join (walk_root parts) filename in
        broken ← check_file filepath fs;
        later ← check_files parts rest fs;
        Some (match broken with
              | [] => later
              | _ :: _ => (rel_path parts filename, broken) :: later
              end)
  end.

Fixpoint check_walk (walk : list (list str * list str)) (fs : SFS)
    : option (list (str * list Broken)) :=
  match walk with
  | [] => Some []
  | (parts, filenames) :: rest =>
      here ← check_files parts filenames fs;
      later ← check_walk rest fs;
      Some (here ++ later)
  end.

(** Returns [all_broken], whose length is the total it prints. *)
Definition main (walk : list (list str * list str)) (fs : SFS)
    : option (list (str * list Broken)) :=
  check_walk walk fs.

End find_broken_links.

End FindBrokenLinks.

(** * The design document's vocabulary

    Definitions that follow the words of the design document, to be
    compared with the functions embedded above. *)

(** [needle] occurs in [s] at index [i]. *)
Definition occurs_at (needle s : str) (i : nat) : Prop :=
  i ≤ length s ∧ ∃ r, drop i s = needle ++ r.

(** [i] is the index of the first occurrence of [needle] in [s]. *)
Definition first_occurrence (needle s : str) (i : nat) : Prop :=
  occurs_at needle s i ∧ ∀ j, j < i → ¬ occurs_at needle s j.

Module Design.

Section resolver.

Variable STRUCTURE_DIR : Path.
Variable exists_ : Path → bool.

(** Section 4.3, step 1: the target split at its qualifiers into directory
    segments and a final name, walked from the corpus root, with the file
    suffix appended to the final segment. *)
Definition qualified_path (target : str) : Path :=
  let segments := split ":" target in
  let directories := removelast segments in
  let final := List.last segments [] in
  joinpath (foldl joinpath STRUCTURE_DIR directories) (final ++ py ".txt").

(** Section 4.3, step 2: the bare name in the directory of the source. *)
Definition same_directory_path (target : str) (source : Path) : Path :=
  joinpath (parent source) (target ++ py ".txt").

(** Section 4.3, step 3: the Name Index decides by the number of matches. *)
Definition name_index_lookup (name : str) (name_index : gmap str (list Path))
    : ForwardLinks.Resolution :=
  let matches := default [] (name_index !! name) in
  if bool_decide (length matches = 0) then ForwardLinks.Unresolved
  else if bool_decide (length matches = 1)
  then ForwardLinks.Resolved (List.hd [] matches)
  else ForwardLinks.Ambiguous matches.

(** Section 4.3: the three steps in order, first success wins. *)
Definition resolve (target : str) (source : Path) (name_index : gmap str (list Path))
    : ForwardLinks.Resolution :=
  let attempt :=
    if contains ":" target then qualified_path target
    else same_directory_path target source in
  if exists_ attempt then ForwardLinks.Resolved attempt
  else name_index_lookup (List.last (split ":" target) []) name_index.

End resolver.

End Design.

(** ** Notions used in the statements *)

(** The file a link is tested against by the two checkers. *)
Definition literal_file (target : str) : str :=
  os_path_join BASE_DIR (replace ":" "/" target ++ py ".txt").


(** An edit replaces the characters from [start] up to [end] by a text. *)
Definition edit : Type := nat * nat * str.


(** The text of [c] from index [from] on, with the edits made in one pass
    from left to right. *)
Fixpoint splice (c : str) (from : nat) (edits : list edit) : str :=
  match edits with
  | [] => drop from c
  | (s, e, t) :: rest => take (s - from) (drop from c) ++ t ++ splice c e rest
  end.

(** The spans lie between [from] and [to], are not empty, and each ends
    before the next starts. *)
Fixpoint ordered_spans (from to : nat) (edits : list edit) : Prop :=
  match edits with
  | [] => from ≤ to
  | (s, e, _) :: rest => from ≤ s ∧ s < e ∧ ordered_spans e to rest
  end.

(** The edit that puts [f l] in place of the match [l]. *)
Definition edit_of (f : LinkInfo → str) (l : LinkInfo) : edit :=
  (start l, end_ l, f l).



(** A name [os.walk] can list: not empty, without a separator, not [.]. *)
Definition valid_filename (f : str) : Prop :=
  f ≠ [] ∧ ("/" ∉ f) ∧ f ≠ py ".".

(** The listing of [os.walk] holds valid file names only. *)
Definition valid_walk (walk : list (Path * list str)) : Prop :=
  Forall (fun entry => Forall valid_filename (entry.2)) walk.

(** Section 8, third property, as written: whatever the final segment of
    the qualified link is, one file of that name makes the link resolve. *)
Definition unique_name_rescues_every_link : Prop :=
  ∀ (STRUCTURE_DIR : Path) (exists_ : Path → bool) (walk : list (Path * list str))
    (source_file : Path) (link c : str) (t : Path),
    valid_walk walk →
    contains ":" link = true →
    List.last (split ":" link) [] = c →
    exists_ (Design.qualified_path STRUCTURE_DIR link) = false →
    filter (fun f => name f = c ++ py ".txt") (ForwardLinks.get_all_txt_files walk) = [t] →
    ForwardLinks.resolve_link_target STRUCTURE_DIR exists_ link source_file
      (ForwardLinks.build_name_index (ForwardLinks.get_all_txt_files walk))
    = ForwardLinks.Resolved t.

(** A link the normalizer leaves as it is: a child-page link, a qualified
    link whose file is there, or a link whose name is not in the index. *)
Definition kept_link (isfile : str → bool) (elements : gmap str str) (m : LinkInfo) : Prop :=
  startswith (py "+") (link_path m) = true
  ∨ (contains ":" (link_path m) = true ∧ isfile (literal_file (link_path m)) = true)
  ∨ elements !! List.last (split ":" (link_path m)) [] = None.

(** A name that can stand as a segment of a link and as a part of a path:
    not empty, not [.], without separator, qualifier, bar or bracket. *)
Definition plain_name (p : str) : Prop :=
  p ≠ [] ∧ p ≠ py "."
  ∧ Forall (fun x => x ≠ "/" ∧ x ≠ ":" ∧ x ≠ "|" ∧ x ≠ "]") p.

(** ** Small corpora on which the scripts are run *)

(** A corpus with one hidden file [d/.txt] and a source [d/s.txt]. *)
Definition hidden_walk : list (Path * list str) :=
  [([py "wiki"; py "d"], [py ".txt"; py "s.txt"])].

Definition hidden_exists (p : Path) : bool :=
  bool_decide (p ∈ [[py "wiki"]; [py "wiki"; py "d"];
                    [py "wiki"; py "d"; py ".txt"]; [py "wiki"; py "d"; py "s.txt"]]).








(** A corpus with one mislabelled link, and one with a stale sentinel. *)
Definition small_walk : list (Path * list str) :=
  [([py "wiki"; py "a"], [py "s.txt"; py "t.txt"])].

Definition small_exists (p : Path) : bool :=
  bool_decide (p ∈ [[py "wiki"]; [py "wiki"; py "a"];
                    [py "wiki"; py "a"; py "s.txt"]; [py "wiki"; py "a"; py "t.txt"]]).

Definition mislabelled : FS :=
  <[[py "wiki"; py "a"; py "s.txt"] := py "see [[t|t]]"]>
    (<[[py "wiki"; py "a"; py "t.txt"] := py "T"]> ∅).

Definition stale_sentinel : FS :=
  <[[py "wiki"; py "a"; py "s.txt"] := py "see [[t]]"]>
    (<[[py "wiki"; py "a"; py "t.txt"] :=
         py "T" ++ ["010"] ++ Backlinks.header ++ py "(no backlinks)" ++ ["010"]]> ∅).

(** A corpus with [x.txt] at the root and another [x.txt] beside the
    source [d/s.txt]. *)
Definition clash_walk : list (Path * list str) :=
  [([py "wiki"], [py "x.txt"]); ([py "wiki"; py "d"], [py "s.txt"; py "x.txt"])].

Definition clash_exists (p : Path) : bool :=
  bool_decide (p ∈ [[py "wiki"]; [py "wiki"; py "d"]; [py "wiki"; py "x.txt"];
                    [py "wiki"; py "d"; py "s.txt"]; [py "wiki"; py "d"; py "x.txt"]]).

Definition clash_files : FS :=
  <[[py "wiki"; py "d"; py "s.txt"] := py "see [[:x]]"]>
    (<[[py "wiki"; py "x.txt"] := py "root"]>
       (<[[py "wiki"; py "d"; py "x.txt"] := py "beside"]> ∅)).

(** A source [c/s.txt] with a bare link to the file [x.txt] beside it. *)
Definition beside_source : str := BASE_DIR ++ py "/c/s.txt".

Definition beside_files : SFS :=
  <[beside_source := py "see [[x]] and [[c:x|x]]"]> (<[BASE_DIR ++ py "/c/x.txt" := py "x"]> ∅).

Definition beside_isfile (p : str) : bool :=
  bool_decide (p ∈ [beside_source; BASE_DIR ++ py "/c/x.txt"]).

(** * Properties *)

(** ** Strings: prefixes, search, splitting *)

Lemma startswith_spec (p s : str) :
  startswith p s = true ↔ ∃ r, s = p ++ r.
Proof.
  revert s. induction p as [|a p IH]; intros s; simpl.
  - split; [eauto|done].
  - destruct s as [|x s]; simpl.
    + split; [done|]. intros [r Hr]. discriminate.
    + rewrite andb_true_iff, bool_decide_eq_true, IH. split.
      * intros [-> [r ->]]. eauto.
      * intros [r Hr]. injection Hr as -> ->. eauto.
Qed.

Lemma startswith_app (p r : str) : startswith p (p ++ r) = true.
Proof. apply startswith_spec. eauto. Qed.

Lemma endswith_spec (p s : str) :
  endswith p s = true ↔ ∃ g, s = g ++ p.
Proof.
  unfold endswith. rewrite startswith_spec. split.
  - intros [r Hr]. exists (reverse r).
    rewrite <- (reverse_involutive s), Hr, reverse_app.
    by rewrite reverse_involutive.
  - intros [g ->]. exists (reverse g). by rewrite reverse_app.
Qed.

Lemma find_Some (needle s : str) (i : nat) :
  find needle s = Some i ↔ first_occurrence needle s i.
Proof.
  revert i. induction s as [|x s IH]; intros i.
  - simpl. destruct (startswith needle []) eqn:Hs.
    + apply startswith_spec in Hs as [r Hr]. split.
      * intros [= <-]. split; [split; [simpl; lia|exists r; done]|intros j Hj; lia].
      * intros [[Hi _] _]. simpl in Hi. f_equal. lia.
    + split; [done|]. intros [[Hi [r Hr]] _]. simpl in Hi.
      assert (i = 0) as -> by lia. simpl in Hr.
      assert (startswith needle [] = true) by (apply startswith_spec; eauto).
      congruence.
  - cbn [find]. destruct (startswith needle (x :: s)) eqn:Hs.
    + apply startswith_spec in Hs as [r Hr]. split.
      * intros [= <-]. split; [split; [simpl; lia|exists r; done]|intros j Hj; lia].
      * intros [_ Hmin]. destruct i as [|i]; [done|].
        exfalso. apply (Hmin 0); [lia|]. split; [simpl; lia|eauto].
    + destruct i as [|i].
      * split.
        { destruct (find needle s); simpl; discriminate. }
        intros [[_ [r Hr]] _]. simpl in Hr.
        assert (startswith needle (x :: s) = true) by (apply startswith_spec; eauto).
        congruence.
      * destruct (find needle s) as [k|] eqn:Hf; simpl.
        -- split.
           ++ intros [= <-]. destruct (proj1 (IH k) eq_refl) as [[Hk Ho] Hmin].
              split; [split; [simpl; lia|done]|].
              intros [|j] Hj [Hj1 [r Hr]].
              ** simpl in Hr.
                 assert (startswith needle (x :: s) = true) by (apply startswith_spec; eauto).
                 congruence.
              ** apply (Hmin j); [lia|]. split; [simpl in Hj1; lia|eauto].
           ++ intros [[Hi Ho] Hmin]. f_equal. symmetry.
              assert (Some k = Some i) as Hi'; [|congruence].
              apply IH. split; [split; [simpl in Hi; lia|done]|].
              intros j Hj [Hj1 Hj2]. apply (Hmin (S j)); [lia|].
              split; [simpl; lia|done].
        -- split; [done|]. intros [[Hi Ho] Hmin]. exfalso.
           assert (None = Some i) as Hi'; [|congruence].
           apply IH. split; [split; [simpl in Hi; lia|done]|].
           intros j Hj [Hj1 Hj2]. apply (Hmin (S j)); [lia|].
           split; [simpl; lia|done].
Qed.

Lemma find_None (needle s : str) :
  find needle s = None ↔ ∀ i, ¬ occurs_at needle s i.
Proof.
  induction s as [|x s IH].
  - simpl. destruct (startswith needle []) eqn:Hs.
    + split; [done|]. intros H. exfalso. apply (H 0).
      apply startswith_spec in Hs as [r Hr]. split; [simpl; lia|eauto].
    + split; [|done]. intros _ i [Hi [r Hr]]. simpl in Hi.
      assert (i = 0) as -> by lia. simpl in Hr.
      assert (startswith needle [] = true) by (apply startswith_spec; eauto).
      congruence.
  - cbn [find]. destruct (startswith needle (x :: s)) eqn:Hs.
    + split; [done|]. intros H. exfalso. apply (H 0).
      apply startswith_spec in Hs as [r Hr]. split; [simpl; lia|eauto].
    + destruct (find needle s) as [k|] eqn:Hf; simpl.
      * split; [done|]. intros H. exfalso.
        apply find_Some in Hf as [[Hk Ho] _]. apply (H (S k)).
        split; [simpl; lia|done].
      * split; [|done]. intros _ [|i] [Hi [r Hr]].
        -- simpl in Hr.
           assert (startswith needle (x :: s) = true) by (apply startswith_spec; eauto).
           congruence.
        -- destruct IH as [IH _]. apply (IH eq_refl i).
           split; [simpl in Hi; lia|eauto].
Qed.

(** Once [needle] occurs after [pre], the first occurrence is at or before
    the end of [pre]. *)
Lemma find_app_occurrence (needle pre post : str) :
  ∃ i, find needle (pre ++ needle ++ post) = Some i ∧ i ≤ length pre.
Proof.
  destruct (find needle (pre ++ needle ++ post)) as [i|] eqn:Hf.
  - exists i. split; [done|].
    apply find_Some in Hf as [_ Hmin].
    destruct (decide (i ≤ length pre)) as [|Hn]; [done|].
    exfalso. apply (Hmin (length pre)); [lia|].
    split; [rewrite length_app; lia|].
    exists post. by rewrite drop_app_length.
  - exfalso. rewrite find_None in Hf. apply (Hf (length pre)).
    split; [rewrite length_app; lia|].
    exists post. by rewrite drop_app_length.
Qed.

(** C10: both verifiers cut the text at the first occurrence of the literal
    [===== Backlinks =====], wherever it stands: the content section is the
    text before that index, everything from it on is the backlinks region,
    and links are parsed in the content section only.  When the literal
    occurs after some text [pre], the cut is at or before the end of [pre],
    so nothing that follows the literal is parsed. *)
Theorem backlinks_region_starts_at_first_occurrence :
  ∀ (content : str) (file_path : Path),
    (∀ i, find (py "===== Backlinks =====") content = Some i →
       first_occurrence (py "===== Backlinks =====") content i ∧
       ForwardLinks.get_content_section content = (take i content, drop i content) ∧
       Backlinks.extract_links content file_path
         = map link_path (ForwardLinks.find_all_links (take i content)))
    ∧ (find (py "===== Backlinks =====") content = None →
       (∀ i, ¬ occurs_at (py "===== Backlinks =====") content i) ∧
       ForwardLinks.get_content_section content = (content, []) ∧
       Backlinks.extract_links content file_path
         = map link_path (ForwardLinks.find_all_links content))
    ∧ (∀ pre post, content = pre ++ py "===== Backlinks =====" ++ post →
       ∃ i, i ≤ length pre ∧
         first_occurrence (py "===== Backlinks =====") content i ∧
         ForwardLinks.get_content_section content
           = (take i pre, drop i pre ++ py "===== Backlinks =====" ++ post) ∧
         Backlinks.extract_links content file_path
           = map link_path (ForwardLinks.find_all_links (take i pre))).
Proof.
  intros content file_path. split_and!.
  - intros i Hi. split; [by apply find_Some|].
    unfold ForwardLinks.get_content_section, Backlinks.extract_links.
    by rewrite Hi.
  - intros Hn. split; [by apply find_None|].
    unfold ForwardLinks.get_content_section, Backlinks.extract_links.
    by rewrite Hn.
  - intros pre post ->.
    destruct (find_app_occurrence (py "===== Backlinks =====") pre post) as (i & Hi & Hle).
    exists i. split; [done|]. split; [by apply find_Some|].
    unfold ForwardLinks.get_content_section, Backlinks.extract_links.
    rewrite Hi. rewrite take_app_le, drop_app_le by done. done.
Qed.

(** ** The resolver *)

Lemma split_nonempty (c : ascii) (s : str) : split c s ≠ [].
Proof.
  induction s as [|x s IH]; simpl; [done|].
  destruct (decide (x = c)); [done|]. by destruct (split c s).
Qed.

Lemma split_no_sep (c : ascii) (s : str) : c ∉ s → split c s = [s].
Proof.
  induction s as [|x s IH]; intros Hc; simpl; [done|].
  rewrite not_elem_of_cons in Hc. destruct Hc as [Hx Hs].
  destruct (decide (x = c)); [congruence|]. by rewrite IH.
Qed.

(** The indexed loop of the source appends the suffix to the last part and
    to no other. *)
Lemma walk_parts_fold (parts : list str) (target : Path) (i n : nat) :
  n = i + length parts → parts ≠ [] →
  ForwardLinks.walk_parts target i n parts
  = joinpath (foldl joinpath target (removelast parts)) (List.last parts [] ++ py ".txt").
Proof.
  revert target i. induction parts as [|p parts IH]; intros target i Hn Hne; [done|].
  destruct parts as [|q parts].
  - simpl in *. rewrite bool_decide_eq_false_2 by lia. done.
  - change (ForwardLinks.walk_parts target i n (p :: q :: parts))
      with (ForwardLinks.walk_parts
              (if bool_decide (i < n - 1) then joinpath target p
               else joinpath target (p ++ py ".txt")) (S i) n (q :: parts)).
    rewrite bool_decide_eq_true_2 by (simpl in Hn; lia).
    rewrite IH; [done| simpl in *; lia | done].
Qed.

Lemma backlinks_walk_parts_eq (parts : list str) (target : Path) (i n : nat) :
  Backlinks.walk_parts target i n parts = ForwardLinks.walk_parts target i n parts.
Proof. revert target i. induction parts as [|p parts IH]; intros; simpl; [done|]. apply IH. Qed.

Lemma resolve_link_target_design (root : Path) (ex : Path → bool) (link : str)
    (src : Path) (idx : gmap str (list Path)) :
  ForwardLinks.resolve_link_target root ex link src idx
  = Design.resolve root ex link src idx.
Proof.
  unfold ForwardLinks.resolve_link_target, Design.resolve.
  destruct (contains ":" link) eqn:Hc.
  - rewrite walk_parts_fold by (try apply split_nonempty; lia).
    fold (Design.qualified_path root link).
    destruct (ex (Design.qualified_path root link)); [done|].
    unfold Design.name_index_lookup.
    destruct (idx !! _) as [[|m [|m2 ms]]|]; done.
  - unfold Design.same_directory_path.
    destruct (ex _); [done|].
    unfold contains in Hc. apply bool_decide_eq_false in Hc.
    rewrite (split_no_sep _ _ Hc). simpl.
    unfold Design.name_index_lookup.
    destruct (idx !! _) as [[|m [|m2 ms]]|]; done.
Qed.

(** C1: the resolver follows the order of section 4.3, first success
    winning.  A target with a qualifier is split into directory segments and
    a final name and walked from the corpus root, the suffix appended to the
    final segment; a target without one is looked up in the directory of the
    source; when that path does not exist, the final segment is looked up in
    the Name Index: no match is Unresolved, one match is Resolved, several
    are Ambiguous and carry every candidate. *)
Theorem resolve_link_target_follows_design :
  ∀ (STRUCTURE_DIR : Path) (exists_ : Path → bool) (link_path : str)
    (source_file : Path) (name_to_files : gmap str (list Path)),
    let result :=
      ForwardLinks.resolve_link_target STRUCTURE_DIR exists_ link_path source_file name_to_files in
    let final := List.last (split ":" link_path) [] in
    result = Design.resolve STRUCTURE_DIR exists_ link_path source_file name_to_files
    ∧ (contains ":" link_path = true →
         exists_ (Design.qualified_path STRUCTURE_DIR link_path) = true →
         result = ForwardLinks.Resolved (Design.qualified_path STRUCTURE_DIR link_path))
    ∧ (contains ":" link_path = false →
         exists_ (Design.same_directory_path link_path source_file) = true →
         result = ForwardLinks.Resolved (Design.same_directory_path link_path source_file))
    ∧ (exists_ (if contains ":" link_path then Design.qualified_path STRUCTURE_DIR link_path
                else Design.same_directory_path link_path source_file) = false →
         (name_to_files !! final = None ∨ name_to_files !! final = Some [] →
            result = ForwardLinks.Unresolved)
         ∧ (∀ m, name_to_files !! final = Some [m] → result = ForwardLinks.Resolved m)
         ∧ (∀ m1 m2 ms, name_to_files !! final = Some (m1 :: m2 :: ms) →
              result = ForwardLinks.Ambiguous (m1 :: m2 :: ms))).
Proof.
  intros root ex link src idx result final.
  pose proof (resolve_link_target_design root ex link src idx) as Heq.
  fold result in Heq.
  split; [done|]. rewrite Heq. unfold Design.resolve.
  split_and!.
  - intros -> ->. done.
  - intros -> ->. done.
  - intros ->. fold final. unfold Design.name_index_lookup. split_and!.
    + intros [-> | ->]; done.
    + intros m ->. done.
    + intros m1 m2 ms ->. done.
Qed.

(** ** The canonical formatter *)

Lemma relative_to_app (base rel : Path) : relative_to (base ++ rel) base = Some rel.
Proof.
  induction base as [|b base IH]; simpl; [by destruct rel|].
  destruct (decide (b = b)); [done|congruence].
Qed.

Lemma parent_snoc (p : Path) (f : str) : parent (p ++ [f]) = p.
Proof. apply removelast_last. Qed.

Lemma name_snoc (p : Path) (f : str) : name (p ++ [f]) = f.
Proof. apply last_last. Qed.

Lemma with_suffix_empty_snoc (dirs : Path) (f : str) :
  f ≠ [] → with_suffix_empty (dirs ++ [f]) = Some (dirs ++ [stem_of f]).
Proof.
  intros Hf. unfold with_suffix_empty, stem.
  rewrite name_snoc, removelast_last. by destruct (decide (f = [])).
Qed.

(** C3: the canonical text of a link from [source_file] to a document
    [target_file] of the corpus, given the label the parser found (never an
    empty one).  In the directory of the source it is the bare short name,
    followed by the label only when one was given that differs from the
    short name; elsewhere it is the colon-joined path from the corpus root,
    always labelled, by the given label or else by the short name.  It
    depends on the source only through its directory. *)
Theorem canonical_link_format :
  ∀ (STRUCTURE_DIR source_file dirs : Path) (filename : str) (label : option str),
    filename ≠ [] →
    label ≠ Some [] →
    let target_file := STRUCTURE_DIR ++ dirs ++ [filename] in
    let short := stem target_file in
    let shown := match label with Some l => l | None => short end in
    ForwardLinks.get_correct_link_format STRUCTURE_DIR source_file target_file label
    = Some (if decide (parent source_file = parent target_file)
            then (if decide (shown = short)
                  then py "[[" ++ short ++ py "]]"
                  else py "[[" ++ short ++ py "|" ++ shown ++ py "]]")
            else py "[[" ++ join (py ":") (dirs ++ [short]) ++ py "|" ++ shown ++ py "]]")
    ∧ ∀ source_file',
        parent source_file' = parent source_file →
        ForwardLinks.get_correct_link_format STRUCTURE_DIR source_file' target_file label
        = ForwardLinks.get_correct_link_format STRUCTURE_DIR source_file target_file label.
Proof.
  intros root src dirs f label Hf Hlabel target short shown.
  assert (short = stem_of f) as Hshort.
  { unfold short, target, stem. by rewrite app_assoc, name_snoc. }
  assert (relative_to target root = Some (dirs ++ [f])) as Hrel.
  { unfold target. apply relative_to_app. }
  split.
  - unfold ForwardLinks.get_correct_link_format.
    fold short. rewrite Hrel. simpl.
    rewrite with_suffix_empty_snoc by done. simpl.
    rewrite <- Hshort.
    destruct label as [l|]; simpl.
    + assert (l ≠ []) by congruence.
      rewrite (bool_decide_eq_true_2 (l ≠ [])) by done. simpl.
      unfold shown. destruct (decide (l = short)) as [->|Hne].
      * rewrite bool_decide_eq_false_2 by tauto.
        destruct (decide (parent src = parent target)); done.
      * rewrite bool_decide_eq_true_2 by done.
        destruct (decide (parent src = parent target)); done.
    + unfold shown. destruct (decide (short = short)); [|done].
      destruct (decide (parent src = parent target)); done.
  - intros src' Hsrc. unfold ForwardLinks.get_correct_link_format. by rewrite Hsrc.
Qed.

Lemma canonical_link_format_witness :
  ForwardLinks.get_correct_link_format [py "wiki"] [py "wiki"; py "a"; py "s.txt"]
    ([py "wiki"] ++ [py "b"] ++ [py "module_item.txt"]) (Some (py "item"))
  = Some (py "[[b:module_item|item]]").
Proof.
  pose proof (canonical_link_format [py "wiki"] [py "wiki"; py "a"; py "s.txt"]
                [py "b"] (py "module_item.txt") (Some (py "item"))) as H.
  destruct H as [H _]; [discriminate | discriminate |].
  rewrite H. vm_compute. reflexivity.
Defined.

(** ** The link pattern *)

Lemma span_stop (p : ascii → bool) (a : str) (c : ascii) (rest : str) :
  Forall (fun x => p x = true) a → p c = false →
  span p (a ++ c :: rest) = (a, c :: rest).
Proof.
  intros Ha Hc. induction Ha as [|x a Hx Ha IH]; simpl.
  - by rewrite Hc.
  - by rewrite Hx, IH.
Qed.

(** A well-formed unlabelled link at the head of the text is matched, and
    the match is exactly its text. *)
Lemma match_link_bare (no_plus : bool) (target post : str) :
  target ≠ [] →
  Forall (fun x => not_close_or_bar x = true) target →
  (no_plus = true → startswith (py "+") target = false) →
  match_link no_plus (py "[[" ++ target ++ py "]]" ++ post)
  = Some (target, None, length target + 4).
Proof.
  intros Hne Hall Hplus. unfold match_link.
  rewrite startswith_app. cbn [py list_ascii_of_string app drop].
  rewrite !drop_0.
  replace (no_plus && startswith ["+"] (target ++ "]" :: "]" :: post)) with false.
  2:{ destruct no_plus; [|done]. simpl. symmetry.
      specialize (Hplus eq_refl). destruct target as [|x t]; [done|].
      simpl in *. done. }
  rewrite span_stop by done.
  rewrite bool_decide_eq_false_2 by done.
  cbn [startswith]. rewrite !bool_decide_eq_true_2 by done. simpl.
  do 3 f_equal. lia.
Qed.

Lemma finditer_match (no_plus : bool) (pos : nat) (x : ascii) (s p : str)
    (d : option str) (n : nat) :
  match_link no_plus (x :: s) = Some (p, d, n) →
  finditer no_plus 0 pos (x :: s)
  = mkLink pos (pos + n) (take n (x :: s)) p d :: finditer no_plus (n - 1) (S pos) s.
Proof. intros H. cbn [finditer]. by rewrite H. Qed.


Lemma take_text (a b s : str) (n : nat) :
  s = a ++ b → n = length a → take n s = a.
Proof. intros -> ->. apply take_app_length. Qed.



(** ** check_links.py and find_broken_links.py *)


(** ** Sorting by short name *)

Lemma nat_of_ascii_inj (x y : ascii) : nat_of_ascii x = nat_of_ascii y → x = y.
Proof.
  intros H. rewrite <- (ascii_nat_embedding x), <- (ascii_nat_embedding y). by rewrite H.
Qed.

Lemma str_ltb_asym (a b : str) : str_ltb a b = true → str_ltb b a = false.
Proof.
  revert b. induction a as [|x a IH]; intros [|y b]; simpl; try done.
  destruct (decide (x = y)) as [->|Hxy].
  - destruct (decide (y = y)); [|done]. apply IH.
  - destruct (decide (y = x)); [congruence|].
    rewrite bool_decide_eq_true, bool_decide_eq_false. lia.
Qed.

Lemma str_ltb_cotrans (c a b : str) :
  str_ltb c a = true → str_ltb c b = true ∨ str_ltb b a = true.
Proof.
  revert a b. induction c as [|z c IH]; intros [|x a] [|y b]; simpl; auto.
  destruct (decide (z = x)) as [->|Hzx].
  - intros Hca. destruct (decide (x = y)) as [->|Hxy].
    + destruct (decide (y = y)); [|done]. by apply IH.
    + destruct (decide (y = x)); [congruence|].
      rewrite !bool_decide_eq_true.
      assert (nat_of_ascii x ≠ nat_of_ascii y) by (intros ?%nat_of_ascii_inj; done).
      lia.
  - rewrite bool_decide_eq_true. intros Hzx'.
    destruct (decide (z = y)) as [->|Hzy].
    + destruct (decide (y = x)); [congruence|].
      right. rewrite bool_decide_eq_true. done.
    + destruct (decide (y = x)) as [->|Hyx].
      * left. by rewrite bool_decide_eq_true.
      * rewrite !bool_decide_eq_true.
        assert (nat_of_ascii z ≠ nat_of_ascii y) by (intros ?%nat_of_ascii_inj; done).
        lia.
Qed.

Lemma str_leb_total (a b : str) : str_leb a b = false → str_leb b a = true.
Proof.
  unfold str_leb. rewrite negb_false_iff, negb_true_iff. apply str_ltb_asym.
Qed.

Lemma str_leb_trans (a b c : str) :
  str_leb a b = true → str_leb b c = true → str_leb a c = true.
Proof.
  unfold str_leb. rewrite !negb_true_iff. intros Hba Hcb.
  destruct (str_ltb c a) eqn:Hca; [|done].
  destruct (str_ltb_cotrans _ _ b Hca); congruence.
Qed.

Section insertion_sort.

Context {A : Type} (leb : A → A → bool).
Hypothesis leb_total : ∀ a b, leb a b = false → leb b a = true.
Hypothesis leb_trans : ∀ a b c, leb a b = true → leb b c = true → leb a c = true.

Lemma insert_sorted_perm (x : A) (l : list A) : insert_sorted leb x l ≡ₚ x :: l.
Proof.
  induction l as [|y l IH]; simpl; [done|].
  destruct (leb x y); [done|]. rewrite IH. apply Permutation_swap.
Qed.

Lemma sorted_perm (l : list A) : sorted leb l ≡ₚ l.
Proof.
  induction l as [|x l IH]; simpl; [done|].
  unfold sorted in *. simpl. rewrite insert_sorted_perm. by rewrite IH.
Qed.

Lemma insert_sorted_sorted (x : A) (l : list A) :
  StronglySorted (fun a b => leb a b = true) l →
  StronglySorted (fun a b => leb a b = true) (insert_sorted leb x l).
Proof.
  induction 1 as [|y l Hl IH Hy]; simpl.
  - repeat constructor.
  - destruct (leb x y) eqn:Hxy.
    + constructor; [by constructor|].
      constructor; [done|]. eapply Forall_impl; [exact Hy|].
      intros z Hz. by eapply leb_trans.
    + constructor; [done|].
      rewrite insert_sorted_perm. constructor; [by apply leb_total|done].
Qed.

Lemma sorted_sorted (l : list A) :
  StronglySorted (fun a b => leb a b = true) (sorted leb l).
Proof.
  induction l as [|x l IH]; simpl; [constructor|].
  by apply insert_sorted_sorted.
Qed.

End insertion_sort.

Lemma sorted_by_perm {A} (key : A → str) (l : list A) : sorted_by key l ≡ₚ l.
Proof. apply sorted_perm. Qed.

Lemma sorted_by_sorted {A} (key : A → str) (l : list A) :
  StronglySorted (fun a b => str_leb (key a) (key b) = true) (sorted_by key l).
Proof.
  apply (sorted_sorted (fun a b => str_leb (key a) (key b))).
  - intros a b. apply str_leb_total.
  - intros a b c. apply str_leb_trans.
Qed.

(** ** The backlink fixer *)





(** The fixer writes to the file it is given and to no other. *)
Lemma fix_backlinks_in_file_frame (root target : Path) (expected : list Path)
    (fs fs' : FS) (b : bool) (p : Path) :
  Backlinks.fix_backlinks_in_file root target expected fs = Some (b, fs') →
  p ≠ target → fs' !! p = fs !! p.
Proof.
  unfold Backlinks.fix_backlinks_in_file. intros H Hp.
  destruct (fs !! target) as [content|]; [|done]. simpl in H.
  destruct (find Backlinks.header content); [|by injection H as <- <-].
  destruct (match expected with [] => _ | _ => _ end); [|done].
  simpl in H. injection H as <- <-. by rewrite lookup_insert_ne.
Qed.

Lemma fix_all_frame (root : Path) (issues : list Backlinks.Issue) (fs fs' : FS) (p : Path) :
  Backlinks.fix_all root issues fs = Some fs' →
  Forall (fun issue => Backlinks.file issue ≠ p) issues →
  fs' !! p = fs !! p.
Proof.
  revert fs. induction issues as [|issue issues IH]; intros fs; simpl.
  - by intros [= <-].
  - intros H Hall. apply Forall_cons in Hall as [Hp Hall].
    destruct (Backlinks.fix_backlinks_in_file root _ _ fs) as [[b fs1]|] eqn:Hfix; [|done].
    simpl in H. rewrite (IH _ H Hall).
    eapply fix_backlinks_in_file_frame; eauto.
Qed.




(** ** Replacing spans of a text *)

Lemma ordered_spans_le (from to : nat) (edits : list edit) :
  ordered_spans from to edits → from ≤ to.
Proof.
  revert from. induction edits as [|[[s e] t] rest IH]; intros from; simpl; [done|].
  intros (? & ? & H%IH). lia.
Qed.

Lemma ordered_spans_weaken (from from' to : nat) (edits : list edit) :
  from' ≤ from → ordered_spans from to edits → ordered_spans from' to edits.
Proof.
  destruct edits as [|[[s e] t] rest]; simpl; [lia|].
  intros ? (? & ? & ?). split_and!; [lia|done|done].
Qed.

Lemma take_split (c : str) (from s : nat) :
  from ≤ s → take s c = take from c ++ take (s - from) (drop from c).
Proof.
  revert c s. induction from as [|from IH]; intros c s Hs; simpl.
  - by rewrite drop_0, Nat.sub_0_r.
  - destruct s as [|s]; [lia|]. destruct c as [|x c]; simpl; [by rewrite take_nil|].
    rewrite (IH c s) by lia. done.
Qed.

Lemma drop_split (c : str) (from e : nat) :
  from ≤ e → drop from c = take (e - from) (drop from c) ++ drop e c.
Proof.
  intros He. rewrite <- (take_drop (e - from) (drop from c)) at 1.
  rewrite drop_drop. do 2 f_equal. lia.
Qed.


(** An edit that writes back the text it covers changes nothing. *)
Lemma splice_advance (c : str) (from e to : nat) (edits : list edit) :
  from ≤ e → ordered_spans e to edits →
  splice c from edits = take (e - from) (drop from c) ++ splice c e edits.
Proof.
  intros He Hord. destruct edits as [|[[s e'] t] rest]; simpl.
  - by apply drop_split.
  - destruct Hord as (Hs & _ & _).
    rewrite (take_split (drop from c) (e - from) (s - from)) by lia.
    rewrite drop_drop.
    replace (s - from - (e - from)) with (s - e) by lia.
    replace (from + (e - from)) with e by lia.
    by rewrite <- app_assoc.
Qed.

Lemma splice_identity_edit (c : str) (from s e to : nat) (rest : list edit) :
  from ≤ s → s < e → ordered_spans e to rest →
  splice c from ((s, e, take (e - s) (drop s c)) :: rest) = splice c from rest.
Proof.
  intros Hs Hse Hrest. simpl.
  rewrite (splice_advance c from e to rest) by (lia || done).
  rewrite (take_split (drop from c) (s - from) (e - from)) by lia.
  rewrite drop_drop.
  replace (e - from - (s - from)) with (e - s) by lia.
  replace (from + (s - from)) with s by lia.
  by rewrite <- app_assoc.
Qed.

(** ** Matches of the link pattern as spans *)

Lemma span_app (p : ascii → bool) (s a b : str) : span p s = (a, b) → s = a ++ b.
Proof.
  revert a b. induction s as [|x s IH]; intros a b; simpl.
  - by intros [= <- <-].
  - destruct (p x).
    + destruct (span p s) as [a' b'] eqn:Hs. intros [= <- <-].
      simpl. f_equal. by apply IH.
    + by intros [= <- <-].
Qed.

(** A match is not empty and lies within the text. *)
Lemma match_link_length (no_plus : bool) (s p : str) (d : option str) (n : nat) :
  match_link no_plus s = Some (p, d, n) → 0 < n ≤ length s.
Proof.
  unfold match_link.
  destruct (startswith (py "[[") s) eqn:Hopen; [|done].
  apply startswith_spec in Hopen as [rest ->].
  rewrite (drop_app_length' (py "[[") rest 2) by done.
  destruct (no_plus && _); [done|].
  destruct (span not_close_or_bar rest) as [g1 r1] eqn:Hg1.
  apply span_app in Hg1 as ->.
  destruct (bool_decide (g1 = [])); [done|].
  destruct (startswith (py "]]") r1) eqn:Hclose.
  - apply startswith_spec in Hclose as [r ->]. intros [= <- <- <-].
    rewrite !length_app. simpl. lia.
  - destruct (startswith (py "|") r1) eqn:Hbar; [|done].
    apply startswith_spec in Hbar as [r ->].
    rewrite (drop_app_length' (py "|") r 1) by done.
    destruct (span not_close r) as [g2 r3] eqn:Hg2.
    apply span_app in Hg2 as ->.
    destruct (bool_decide (g2 = [])); [done|].
    destruct (startswith (py "]]") r3) eqn:Hclose2; [|done].
    apply startswith_spec in Hclose2 as [r' ->]. intros [= <- <- <-].
    rewrite !length_app. simpl. rewrite ?length_app. simpl. lia.
Qed.

(** The matches found in the tail [s] of [c] that starts at [pos], after
    [skip] more characters: their spans are in order and within [c], and
    each records the text of [c] it covers. *)
Lemma finditer_spans (no_plus : bool) (f : LinkInfo → str) (c s : str) (skip pos : nat) :
  s = drop pos c → pos ≤ length c → skip ≤ length s →
  ordered_spans (pos + skip) (length c) (map (edit_of f) (finditer no_plus skip pos s))
  ∧ Forall (fun l => full_match l = take (end_ l - start l) (drop (start l) c))
      (finditer no_plus skip pos s).
Proof.
  revert skip pos. induction s as [|x s IH]; intros skip pos Hs Hpos Hskip.
  - simpl in *. split; [|constructor]. lia.
  - assert (s = drop (S pos) c) as Hs'.
    { replace (S pos) with (pos + 1) by lia. rewrite <- drop_drop, <- Hs. done. }
    assert (S pos ≤ length c) as Hpos'.
    { assert (length (x :: s) = length c - pos) as Hl by (rewrite Hs; apply length_drop).
      simpl in Hl. lia. }
    destruct skip as [|k].
    + cbn [finditer].
      destruct (match_link no_plus (x :: s)) as [[[p d] n]|] eqn:Hm.
      * apply match_link_length in Hm as [Hn1 Hn2]. simpl in Hn2.
        destruct (IH (n - 1) (S pos) Hs' Hpos' ltac:(lia)) as [Hord Hfull].
        split.
        -- simpl. split_and!; [lia|lia|].
           replace (pos + n) with (S pos + (n - 1)) by lia. done.
        -- constructor; [|done]. simpl.
           replace (pos + n - pos) with n by lia. by rewrite Hs.
      * destruct (IH 0 (S pos) Hs' Hpos' ltac:(lia)) as [Hord Hfull].
        split; [|done]. eapply ordered_spans_weaken; [|exact Hord]. lia.
    + cbn [finditer]. simpl in Hskip.
      destruct (IH k (S pos) Hs' Hpos' ltac:(lia)) as [Hord Hfull].
      split; [|done]. replace (pos + S k) with (S pos + k) by lia. done.
Qed.

Lemma splice_step (c s : str) (x : ascii) (pos to : nat) (edits : list edit) :
  drop pos c = x :: s → ordered_spans (S pos) to edits →
  splice c pos edits = x :: splice c (S pos) edits.
Proof.
  intros Hc Hord.
  assert (drop (S pos) c = s) as Hs.
  { replace (S pos) with (pos + 1) by lia. by rewrite <- drop_drop, Hc. }
  destruct edits as [|[[st e] t] rest]; simpl.
  - by rewrite Hc, Hs.
  - destruct Hord as (Hst & _ & _). rewrite Hc, Hs.
    replace (st - pos) with (S (st - S pos)) by lia. done.
Qed.

(** [re.sub] is the splice of the replacement at every match. *)
Lemma sub_splice (no_plus : bool) (f : LinkInfo → str) (c s : str) (skip pos : nat) :
  s = drop pos c → pos ≤ length c → skip ≤ length s →
  sub no_plus f skip pos s
  = splice c (pos + skip) (map (edit_of f) (finditer no_plus skip pos s)).
Proof.
  revert skip pos. induction s as [|x s IH]; intros skip pos Hs Hpos Hskip.
  - simpl in *. assert (skip = 0) as -> by lia.
    rewrite Nat.add_0_r. by rewrite <- Hs.
  - assert (s = drop (S pos) c) as Hs'.
    { replace (S pos) with (pos + 1) by lia. rewrite <- drop_drop, <- Hs. done. }
    assert (S pos ≤ length c) as Hpos'.
    { assert (length (x :: s) = length c - pos) as Hl by (rewrite Hs; apply length_drop).
      simpl in Hl. lia. }
    destruct skip as [|k].
    + cbn [sub finditer].
      destruct (match_link no_plus (x :: s)) as [[[p d] n]|] eqn:Hm.
      * apply match_link_length in Hm as [Hn1 Hn2]. simpl in Hn2.
        rewrite (IH (n - 1) (S pos) Hs' Hpos' ltac:(lia)).
        cbn [map splice edit_of start end_].
        rewrite Nat.add_0_r, Nat.sub_diag, take_0. simpl.
        replace (S (pos + (n - 1))) with (pos + n) by lia. done.
      * rewrite (IH 0 (S pos) Hs' Hpos' ltac:(lia)).
        rewrite !Nat.add_0_r. symmetry.
        eapply splice_step; [by rewrite <- Hs|].
        destruct (finditer_spans no_plus f c s 0 (S pos) Hs' Hpos' ltac:(lia)) as [Hord _].
        rewrite Nat.add_0_r in Hord. exact Hord.
    + cbn [sub finditer]. simpl in Hskip.
      rewrite (IH k (S pos) Hs' Hpos' ltac:(lia)).
      by replace (pos + S k) with (S pos + k) by lia.
Qed.

(** ** The forward-link fixer *)



Lemma ordered_spans_starts (from to : nat) (edits : list edit) :
  ordered_spans from to edits → Forall (fun e => from ≤ e.1.1) edits.
Proof.
  revert from. induction edits as [|[[s e] t] rest IH]; intros from; simpl; [constructor|].
  intros (Hs & Hse & Hrest). constructor; [done|].
  eapply Forall_impl; [by apply IH|]. simpl. intros [[s' e'] t']. simpl. lia.
Qed.


(** Links whose text is already the wanted one need no edit. *)
Lemma splice_filter_changed (f : LinkInfo → str) (c : str) (from to : nat)
    (links : list LinkInfo) :
  ordered_spans from to (map (edit_of f) links) →
  Forall (fun l => full_match l = take (end_ l - start l) (drop (start l) c)) links →
  splice c from (map (edit_of f) links)
  = splice c from (map (edit_of f) (filter (fun l => f l ≠ full_match l) links)).
Proof.
  revert from. induction links as [|l links IH]; intros from; [done|].
  cbn [map ordered_spans edit_of]. intros (Hs & Hse & Hrest) Hfull.
  apply Forall_cons in Hfull as [Hl Hfull].
  destruct (decide (f l = full_match l)) as [Heq|Hne].
  - rewrite filter_cons_False by tauto.
    unfold edit_of at 1. rewrite Heq, Hl.
    rewrite (splice_identity_edit c from _ _ to) by done.
    apply IH; [|done]. eapply ordered_spans_weaken; [|exact Hrest]. lia.
  - rewrite filter_cons_True by done.
    cbn [map]. unfold edit_of at 1 3. cbn [splice]. do 2 f_equal. by apply IH.
Qed.






Lemma get_content_section_parts (content : str) :
  content = (ForwardLinks.get_content_section content).1
            ++ (ForwardLinks.get_content_section content).2.
Proof.
  unfold ForwardLinks.get_content_section.
  destruct (find _ content); simpl; [by rewrite take_drop|by rewrite app_nil_r].
Qed.


(** ** The name index *)

Lemma build_name_index_foldl (files : list Path) (m : gmap str (list Path)) (k : str) :
  foldl (fun m f => <[stem f := default [] (m !! stem f) ++ [f]]> m) m files !! k
  = match filter (fun f => stem f = k) files with
    | [] => m !! k
    | found => Some (default [] (m !! k) ++ found)
    end.
Proof.
  revert m. induction files as [|f files IH]; intros m; [done|].
  cbn [foldl]. rewrite IH. destruct (decide (stem f = k)) as [Hk|Hk].
  - rewrite filter_cons_True by done. rewrite Hk, lookup_insert_eq. simpl.
    destruct (filter _ files); simpl; [done|]. by rewrite <- app_assoc.
  - rewrite filter_cons_False by done. by rewrite lookup_insert_ne.
Qed.

(** The bucket of a short name holds the files of that short name, in the
    order of the listing; a name no file has is not a key. *)
Lemma build_name_index_lookup (files : list Path) (k : str) :
  ForwardLinks.build_name_index files !! k
  = match filter (fun f => stem f = k) files with
    | [] => None
    | found => Some found
    end.
Proof.
  unfold ForwardLinks.build_name_index. rewrite build_name_index_foldl.
  rewrite lookup_empty. done.
Qed.

Lemma rfind_app (x : ascii) (a b : str) :
  rfind x (a ++ b)
  = match rfind x b with
    | Some i => Some (length a + i)
    | None => rfind x a
    end.
Proof.
  induction a as [|y a IH]; simpl.
  - by destruct (rfind x b).
  - rewrite IH. destruct (rfind x b); [done|]. done.
Qed.

Lemma stem_of_txt (c : str) : c ≠ [] → stem_of (c ++ py ".txt") = c.
Proof.
  intros Hc. unfold stem_of, suffix_at. rewrite rfind_app. simpl.
  rewrite Nat.add_0_r, length_app. simpl.
  rewrite bool_decide_eq_true_2.
  - by rewrite take_app_length.
  - destruct c; [done|]. simpl. lia.
Qed.

Lemma joinpath_filename (root : Path) (f : str) :
  valid_filename f → joinpath root f = root ++ [f].
Proof.
  intros (Hne & Hsep & Hdot). unfold joinpath, parse_parts.
  rewrite (split_no_sep _ _ Hsep).
  rewrite filter_cons_True by done. rewrite filter_nil.
  destruct f as [|x f]; [done|]. simpl.
  rewrite not_elem_of_cons in Hsep. destruct Hsep as [Hx _].
  rewrite bool_decide_eq_false_2 by congruence. done.
Qed.

(** The files [get_all_txt_files] returns have a valid name ending in the
    suffix. *)
Lemma get_all_txt_files_names (walk : list (Path * list str)) (f : Path) :
  valid_walk walk → f ∈ ForwardLinks.get_all_txt_files walk →
  ∃ g, name f = g ++ py ".txt".
Proof.
  intros Hwalk Hf. unfold ForwardLinks.get_all_txt_files in Hf.
  apply list_elem_of_In, in_flat_map in Hf as ([root fns] & Hentry & Hf).
  apply list_elem_of_In in Hentry, Hf.
  apply list_elem_of_fmap in Hf as (fn & -> & Hfn).
  apply list_elem_of_filter in Hfn as [Htxt Hfn].
  unfold valid_walk in Hwalk. rewrite Forall_forall in Hwalk.
  specialize (Hwalk _ Hentry). simpl in Hwalk. rewrite Forall_forall in Hwalk.
  rewrite joinpath_filename by auto. rewrite name_snoc.
  by apply endswith_spec.
Qed.

(** Among such files, those named [c.txt] are those of short name [c],
    provided [c] is neither empty nor the bare suffix. *)
Lemma stem_iff_name (f : Path) (c : str) :
  c ≠ [] → c ≠ py ".txt" → (∃ g, name f = g ++ py ".txt") →
  stem f = c ↔ name f = c ++ py ".txt".
Proof.
  intros Hc Htxt [g Hg]. unfold stem. rewrite Hg. split.
  - destruct g as [|x g]; [by intros <-|].
    rewrite stem_of_txt by done. by intros ->.
  - intros Heq. apply app_inv_tail in Heq as ->. by apply stem_of_txt.
Qed.

Lemma filter_iff_in {A} (P Q : A → Prop) `{∀ x, Decision (P x)} `{∀ x, Decision (Q x)}
    (l : list A) :
  (∀ x, x ∈ l → P x ↔ Q x) → filter P l = filter Q l.
Proof.
  induction l as [|x l IH]; intros Hiff; [done|].
  rewrite !filter_cons.
  rewrite IH by (intros y Hy; apply Hiff; by right).
  destruct (Hiff x ltac:(by left)) as [H1 H2].
  destruct (decide (P x)), (decide (Q x)); tauto || done.
Qed.

(** ** A missing qualified path and the unique name *)

Lemma hidden_walk_valid : valid_walk hidden_walk.
Proof.
  repeat constructor; try done; try (intros H; vm_compute in H; by apply bool_decide_unpack in H).
  all: apply (bool_decide_unpack _); vm_compute; done.
Qed.

(** The link [a:b:] has an empty final segment.  The only file named
    [.txt] has the short name [.txt], not the empty one, so the index has no
    entry for it and the link is Unresolved. *)
Lemma hidden_file_is_not_found :
  ¬ unique_name_rescues_every_link.
Proof.
  intros H.
  specialize (H [py "wiki"] hidden_exists hidden_walk [py "wiki"; py "d"; py "s.txt"]
                (py "a:b:") [] [py "wiki"; py "d"; py ".txt"] hidden_walk_valid).
  assert (ForwardLinks.resolve_link_target [py "wiki"] hidden_exists (py "a:b:")
            [py "wiki"; py "d"; py "s.txt"]
            (ForwardLinks.build_name_index (ForwardLinks.get_all_txt_files hidden_walk))
          = ForwardLinks.Unresolved) as Hu by (vm_compute; reflexivity).
  rewrite Hu in H. discriminate H; vm_compute; reflexivity.
Qed.

(** C2, amended: a qualified link whose literal path does not exist, and
    whose final segment [c] is neither empty nor the bare suffix [.txt],
    resolves to the one file named [c.txt] when the corpus has exactly one. *)
Theorem unique_name_rescues_missing_path :
  ∀ (STRUCTURE_DIR : Path) (exists_ : Path → bool) (walk : list (Path * list str))
    (source_file : Path) (link c : str) (t : Path),
    valid_walk walk →
    contains ":" link = true →
    List.last (split ":" link) [] = c →
    c ≠ [] →
    c ≠ py ".txt" →
    exists_ (Design.qualified_path STRUCTURE_DIR link) = false →
    filter (fun f => name f = c ++ py ".txt") (ForwardLinks.get_all_txt_files walk) = [t] →
    ForwardLinks.resolve_link_target STRUCTURE_DIR exists_ link source_file
      (ForwardLinks.build_name_index (ForwardLinks.get_all_txt_files walk))
    = ForwardLinks.Resolved t.
Proof.
  intros root ex walk src link c t Hwalk Hq Hlast Hc Htxt Hmissing Hone.
  rewrite resolve_link_target_design. unfold Design.resolve.
  rewrite Hq, Hmissing, Hlast. unfold Design.name_index_lookup.
  rewrite build_name_index_lookup.
  assert (filter (fun f => stem f = c) (ForwardLinks.get_all_txt_files walk) = [t]) as ->.
  { rewrite <- Hone. apply filter_iff_in. intros f Hf.
    apply stem_iff_name; [done..|]. by eapply get_all_txt_files_names. }
  done.
Qed.

Lemma unique_name_rescues_missing_path_witness :
  ForwardLinks.resolve_link_target [py "wiki"] hidden_exists (py "a:b:s")
    [py "wiki"; py "d"; py ".txt"]
    (ForwardLinks.build_name_index (ForwardLinks.get_all_txt_files hidden_walk))
  = ForwardLinks.Resolved [py "wiki"; py "d"; py "s.txt"].
Proof.
  apply (unique_name_rescues_missing_path [py "wiki"] hidden_exists hidden_walk
           [py "wiki"; py "d"; py ".txt"] (py "a:b:s") (py "s")
           [py "wiki"; py "d"; py "s.txt"]).
  - exact hidden_walk_valid.
  - vm_compute; reflexivity.
  - vm_compute; reflexivity.
  - discriminate.
  - discriminate.
  - vm_compute; reflexivity.
  - vm_compute; reflexivity.
Defined.

(** ** Ambiguous links *)

(** The backlink verifier resolves as the forward-link verifier does, and
    keeps the target of a Resolved outcome only. *)
Lemma resolve_link_agrees (root : Path) (ex : Path → bool) (link : str) (src : Path)
    (idx : gmap str (list Path)) :
  Backlinks.resolve_link root ex link src idx
  = match ForwardLinks.resolve_link_target root ex link src idx with
    | ForwardLinks.Resolved t => Some t
    | _ => None
    end.
Proof.
  unfold Backlinks.resolve_link, ForwardLinks.resolve_link_target.
  rewrite backlinks_walk_parts_eq.
  destruct (contains ":" link).
  - destruct (ex _); [done|]. destruct (idx !! _) as [[|m [|m2 ms]]|]; done.
  - destruct (ex _); [done|]. destruct (idx !! _) as [[|m [|m2 ms]]|]; done.
Qed.




(** ** Exit codes *)

(** A fix-mode run of either verifier that repairs the one issue it finds
    exits with 1, although a check of the tree it leaves finds nothing and
    exits with 0. *)
Lemma repaired_run_exits_one :
  (r ← ForwardLinks.main [py "wiki"] small_exists true small_walk mislabelled;
   r' ← ForwardLinks.main [py "wiki"] small_exists false small_walk (ForwardLinks.final_fs r);
   Some (ForwardLinks.exit_code r, ForwardLinks.total_issues r, ForwardLinks.total_fixed r,
         ForwardLinks.final_fs r !! [py "wiki"; py "a"; py "s.txt"],
         ForwardLinks.exit_code r', ForwardLinks.total_issues r'))
  = Some (1, 1, 1, Some (py "see [[t]]"), 0, 0)
  ∧ (r ← Backlinks.main [py "wiki"] small_exists true small_walk stale_sentinel;
     r' ← Backlinks.main [py "wiki"] small_exists false small_walk (Backlinks.final_fs r);
     Some (Backlinks.exit_code r, length (Backlinks.issues r),
           Backlinks.final_fs r !! [py "wiki"; py "a"; py "t.txt"],
           Backlinks.exit_code r', length (Backlinks.issues r')))
    = Some (1, 1, Some (py "T" ++ ["010"] ++ Backlinks.header ++ py "[[s]]" ++ ["010"]), 0, 0).
Proof. split; vm_compute; reflexivity. Qed.

(** What a file adds to the totals does not depend on the mode, nor on
    other files; fix mode writes to that file only and fixes no more than
    was found. *)
Lemma check_and_fix_file_modes (root : Path) (ex : Path → bool) (src : Path)
    (idx : gmap str (list Path)) (fs fs' fs2 : FS) (n k : nat) :
  ForwardLinks.check_and_fix_file root ex src idx true fs = Some (n, k, fs') →
  fs2 !! src = fs !! src →
  ForwardLinks.check_and_fix_file root ex src idx false fs2 = Some (n, 0, fs2)
  ∧ k ≤ n
  ∧ ∀ p, p ≠ src → fs' !! p = fs !! p.
Proof.
  unfold ForwardLinks.check_and_fix_file. intros H Hsame. rewrite Hsame.
  destruct (fs !! src) as [content|]; [|done]. simpl in *.
  destruct (ForwardLinks.get_content_section content) as [cs bs].
  destruct (ForwardLinks.collect_issues root ex src idx _) as [issues|]; [|done].
  simpl in *. destruct issues as [|i issues].
  - injection H as <- <- <-. split_and!; [done|lia|done].
  - set (fixable := ForwardLinks.sort_reverse_start _) in H.
    assert (length fixable ≤ length (i :: issues)) as Hle.
    { unfold fixable, ForwardLinks.sort_reverse_start.
      rewrite (Permutation_length (sorted_perm _ _)). apply length_filter. }
    destruct (bool_decide (0 < length fixable)); injection H as <- <- <-.
    + split_and!; [done|done|]. intros p Hp. by rewrite lookup_insert_ne.
    + split_and!; done.
Qed.

Lemma check_all_modes (root : Path) (ex : Path → bool) (idx : gmap str (list Path))
    (files : list Path) (fs1 fs1' fs2 : FS) (a b b2 n k : nat) :
  NoDup files →
  (∀ f, f ∈ files → fs2 !! f = fs1 !! f) →
  ForwardLinks.check_all root ex idx true files a b fs1 = Some (n, k, fs1') →
  ∃ k2, ForwardLinks.check_all root ex idx false files a b2 fs2 = Some (n, k2, fs2).
Proof.
  revert fs1 a b b2. induction files as [|f files IH]; intros fs1 a b b2 Hnd Hsame; simpl.
  - intros [= <- <- <-]. eauto.
  - apply NoDup_cons in Hnd as [Hf Hnd].
    destruct (ForwardLinks.check_and_fix_file root ex f idx true fs1) as [[[i x] fs1a]|] eqn:Hone;
      [|done].
    simpl. intros Hrest.
    destruct (check_and_fix_file_modes _ _ _ _ _ _ fs2 _ _ Hone) as (Hcheck & _ & Hframe).
    { apply Hsame. by left. }
    rewrite Hcheck. simpl.
    assert (∀ g, g ∈ files → fs2 !! g = fs1a !! g) as Hsame'.
    { intros g Hg. rewrite Hframe by (intros ->; done). apply Hsame. by right. }
    destruct (bool_decide (0 < i)); eapply IH; eauto.
Qed.

Lemma check_all_fixed_le (root : Path) (ex : Path → bool) (idx : gmap str (list Path))
    (files : list Path) (fix_mode : bool) (fs fs' : FS) (a b n k : nat) :
  b ≤ a →
  ForwardLinks.check_all root ex idx fix_mode files a b fs = Some (n, k, fs') →
  k ≤ n.
Proof.
  revert fs a b. induction files as [|f files IH]; intros fs a b Hab; simpl.
  - intros [= <- <- <-]. done.
  - destruct (ForwardLinks.check_and_fix_file root ex f idx fix_mode fs) as [[[i x] fsa]|] eqn:Hone;
      [|done].
    simpl. assert (x ≤ i) as Hxi.
    { destruct fix_mode.
      - by destruct (check_and_fix_file_modes _ _ _ _ _ _ fs _ _ Hone eq_refl) as (_ & ? & _).
      - unfold ForwardLinks.check_and_fix_file in Hone.
        destruct (fs !! f); [|done]. simpl in Hone.
        destruct (ForwardLinks.get_content_section _).
        destruct (ForwardLinks.collect_issues _ _ _ _ _) as [[|? ?]|]; simpl in Hone;
          [| |done]; injection Hone as <- <- <-; lia. }
    destruct (bool_decide (0 < i)); apply IH; lia.
Qed.

(** C5, amended: the exit code of either verifier tells whether the scan
    found an issue, not whether one remains.  It is 0 exactly when no issue
    was found and 1 otherwise, in both modes; a fix-mode run exits as the
    read-only run on the same tree does, however many issues it repaired. *)
Theorem exit_code_reports_issues_found :
  ∀ (STRUCTURE_DIR : Path) (exists_ : Path → bool) (fix_mode : bool)
    (walk : list (Path * list str)) (fs : FS),
    (∀ r, ForwardLinks.main STRUCTURE_DIR exists_ fix_mode walk fs = Some r →
       (ForwardLinks.exit_code r = 0 ↔ ForwardLinks.total_issues r = 0)
       ∧ (ForwardLinks.exit_code r = 1 ↔ 0 < ForwardLinks.total_issues r)
       ∧ ForwardLinks.total_fixed r ≤ ForwardLinks.total_issues r)
    ∧ (∀ r, NoDup (ForwardLinks.get_all_txt_files walk) →
       ForwardLinks.main STRUCTURE_DIR exists_ true walk fs = Some r →
       ∃ r', ForwardLinks.main STRUCTURE_DIR exists_ false walk fs = Some r'
             ∧ ForwardLinks.exit_code r' = ForwardLinks.exit_code r
             ∧ ForwardLinks.total_issues r' = ForwardLinks.total_issues r
             ∧ ForwardLinks.final_fs r' = fs)
    ∧ (∀ r, Backlinks.main STRUCTURE_DIR exists_ fix_mode walk fs = Some r →
       (Backlinks.exit_code r = 0 ↔ Backlinks.issues r = [])
       ∧ (Backlinks.exit_code r = 1 ↔ Backlinks.issues r ≠ []))
    ∧ (∀ r, Backlinks.main STRUCTURE_DIR exists_ true walk fs = Some r →
       ∃ r', Backlinks.main STRUCTURE_DIR exists_ false walk fs = Some r'
             ∧ Backlinks.exit_code r' = Backlinks.exit_code r
             ∧ Backlinks.issues r' = Backlinks.issues r
             ∧ Backlinks.final_fs r' = fs).
Proof.
  intros root ex fix_mode walk fs. split_and!.
  - intros r. unfold ForwardLinks.main.
    destruct (ForwardLinks.check_all _ _ _ _ _ _ _ _) as [[[n k] fs']|] eqn:Hall; [|done].
    simpl. intros [= <-]. simpl.
    apply check_all_fixed_le in Hall; [|lia].
    destruct (bool_decide (n = 0)) eqn:Hn.
    + apply bool_decide_eq_true in Hn. split_and!; [done|lia|done].
    + apply bool_decide_eq_false in Hn. split_and!; [lia|lia|done].
  - intros r Hnd. unfold ForwardLinks.main.
    destruct (ForwardLinks.check_all _ _ _ true _ _ _ _) as [[[n k] fs']|] eqn:Hall; [|done].
    simpl. intros [= <-]. simpl.
    assert (NoDup (sorted path_leb (ForwardLinks.get_all_txt_files walk))) as Hnd'.
    { by rewrite sorted_perm. }
    destruct (check_all_modes _ _ _ _ _ _ fs _ _ 0 _ _ Hnd' ltac:(done) Hall) as [k2 ->].
    simpl. eexists. split; [done|]. done.
  - intros r. unfold Backlinks.main.
    destruct (Backlinks.build_reverse_links _ _ _ _ _ _) as [rev|]; [|done].
    cbn [mbind option_bind].
    destruct (Backlinks.check_all _ _ _ _ _ _) as [[|issue issues]|]; cbn [mbind option_bind];
      [| |done].
    + intros [= <-]. simpl. split; split; done.
    + destruct (if fix_mode then _ else _); cbn [mbind option_bind]; [|done].
      intros [= <-]. simpl. split; split; done.
  - intros r. unfold Backlinks.main.
    destruct (Backlinks.build_reverse_links _ _ _ _ _ _) as [rev|]; [|done].
    cbn [mbind option_bind].
    destruct (Backlinks.check_all _ _ _ _ _ _) as [[|issue issues]|]; cbn [mbind option_bind];
      [| |done].
    + intros [= <-]. eexists. done.
    + destruct (Backlinks.fix_all _ _ _); cbn [mbind option_bind]; [|done].
      intros [= <-]. eexists. done.
Qed.

(** ** Formatting and resolving again *)

(** C8: the link [:x] in [d/s.txt] resolves to the root file [x.txt]; the
    canonical text for that pair is [[[x|x]]], which names no directory,
    and resolving it from [d/s.txt] gives the file beside the source.  Two
    fix-mode runs turn the link into a link to that other file. *)
Theorem root_target_does_not_round_trip :
  let index := ForwardLinks.build_name_index (ForwardLinks.get_all_txt_files clash_walk) in
  let source := [py "wiki"; py "d"; py "s.txt"] in
  ForwardLinks.resolve_link_target [py "wiki"] clash_exists (py ":x") source index
  = ForwardLinks.Resolved [py "wiki"; py "x.txt"]
  ∧ ForwardLinks.get_correct_link_format [py "wiki"] source [py "wiki"; py "x.txt"] None
    = Some (py "[[x|x]]")
  ∧ map link_path (ForwardLinks.find_all_links (py "[[x|x]]")) = [py "x"]
  ∧ ForwardLinks.resolve_link_target [py "wiki"] clash_exists (py "x") source index
    = ForwardLinks.Resolved [py "wiki"; py "d"; py "x.txt"]
  ∧ (r ← ForwardLinks.main [py "wiki"] clash_exists true clash_walk clash_files;
     r' ← ForwardLinks.main [py "wiki"] clash_exists true clash_walk (ForwardLinks.final_fs r);
     Some (ForwardLinks.final_fs r !! source, ForwardLinks.final_fs r' !! source))
    = Some (Some (py "see [[x|x]]"), Some (py "see [[x]]")).
Proof. repeat split; vm_compute; reflexivity. Qed.

(** ** The theorems at concrete inputs *)




(** * Further properties of the scripts *)

(** ** What the link pattern yields *)

Lemma span_Forall (p : ascii → bool) (s a b : str) :
  span p s = (a, b) → Forall (fun x => p x = true) a.
Proof.
  revert a b. induction s as [|x s IH]; intros a b; simpl.
  - intros [= <- <-]. constructor.
  - destruct (p x) eqn:Hx.
    + destruct (span p s) as [a' b'] eqn:Hs. intros [= <- <-].
      constructor; [done|]. by eapply IH.
    + intros [= <- <-]. constructor.
Qed.

(** The text of a match spells the target and the label it records. *)
Lemma match_link_shape (no_plus : bool) (s p : str) (d : option str) (n : nat) :
  match_link no_plus s = Some (p, d, n) →
  take n s = py "[[" ++ p ++ match d with Some l => py "|" ++ l | None => [] end ++ py "]]"
  ∧ p ≠ []
  ∧ Forall (fun x => not_close_or_bar x = true) p
  ∧ (no_plus = true → startswith (py "+") p = false)
  ∧ (∀ l, d = Some l → l ≠ [] ∧ Forall (fun x => not_close x = true) l).
Proof.
  unfold match_link.
  destruct (startswith (py "[[") s) eqn:Hopen; [|done].
  apply startswith_spec in Hopen as [rest ->].
  rewrite (drop_app_length' (py "[[") rest 2) by done.
  destruct (no_plus && startswith (py "+") rest) eqn:Hplus; [done|].
  destruct (span not_close_or_bar rest) as [g1 r1] eqn:Hg1.
  pose proof (span_Forall _ _ _ _ Hg1) as Hall1.
  apply span_app in Hg1 as ->.
  destruct (bool_decide (g1 = [])) eqn:Hne1; [done|].
  apply bool_decide_eq_false in Hne1.
  assert (no_plus = true → startswith (py "+") g1 = false) as Hnoplus.
  { intros ->. simpl in Hplus. destruct g1 as [|x g1]; [done|]. exact Hplus. }
  destruct (startswith (py "]]") r1) eqn:Hclose.
  - apply startswith_spec in Hclose as [r ->]. intros [= <- <- <-].
    split_and!; [|done..].
    eapply take_text with (b := r).
    + by rewrite <- !app_assoc.
    + simpl. rewrite ?length_app. simpl. lia.
  - destruct (startswith (py "|") r1) eqn:Hbar; [|done].
    apply startswith_spec in Hbar as [r ->].
    rewrite (drop_app_length' (py "|") r 1) by done.
    destruct (span not_close r) as [g2 r3] eqn:Hg2.
    pose proof (span_Forall _ _ _ _ Hg2) as Hall2.
    apply span_app in Hg2 as ->.
    destruct (bool_decide (g2 = [])) eqn:Hne2; [done|].
    apply bool_decide_eq_false in Hne2.
    destruct (startswith (py "]]") r3) eqn:Hclose2; [|done].
    apply startswith_spec in Hclose2 as [r' ->]. intros [= <- <- <-].
    split_and!; [|done|done|done|by intros l [= <-]].
    eapply take_text with (b := r').
    + by rewrite <- !app_assoc.
    + simpl. rewrite ?length_app. simpl. rewrite ?length_app. simpl. lia.
Qed.

(** Every link [finditer] returns is a match of the pattern at its start. *)
Lemma finditer_matches (no_plus : bool) (s : str) (skip pos : nat) (l : LinkInfo) :
  l ∈ finditer no_plus skip pos s →
  ∃ s', match_link no_plus s' = Some (link_path l, display_name l, end_ l - start l)
        ∧ full_match l = take (end_ l - start l) s'.
Proof.
  revert skip pos. induction s as [|x s IH]; intros skip pos; simpl.
  - by intros ?%elem_of_nil.
  - destruct skip as [|k]; [|apply IH].
    destruct (match_link no_plus (x :: s)) as [[[p d] n]|] eqn:Hm; [|apply IH].
    intros [->|Hl]%elem_of_cons; [|by eapply IH].
    exists (x :: s). simpl. replace (pos + n - pos) with n by lia. done.
Qed.

(** Links come in the order of the text and do not overlap. *)
Lemma ordered_spans_lookup (f : LinkInfo → str) (from to : nat) (links : list LinkInfo)
    (i j : nat) (li lj : LinkInfo) :
  ordered_spans from to (map (edit_of f) links) →
  i < j → links !! i = Some li → links !! j = Some lj →
  end_ li ≤ start lj.
Proof.
  revert from i j. induction links as [|l links IH]; intros from i j; [done|].
  cbn [map ordered_spans edit_of]. intros (Hs & Hse & Hrest) Hij Hi Hj.
  destruct j as [|j]; [lia|]. simpl in Hj.
  destruct i as [|i].
  - injection Hi as <-.
    apply ordered_spans_starts in Hrest. rewrite Forall_forall in Hrest.
    specialize (Hrest (edit_of f lj)). simpl in Hrest. apply Hrest.
    apply list_elem_of_In, in_map, list_elem_of_In. by eapply list_elem_of_lookup_2.
  - simpl in Hi. eapply (IH (end_ l) i j); eauto. lia.
Qed.

(** X1: every link [find_all_links] returns lies within the content and has
    a span that is not empty; the text it records is the content at that
    span and spells [[[target]]] or [[[target|label]]]; the target is not
    empty, holds neither a closing bracket nor a bar and does not begin with
    the child-page sigil; a label, when present, is not empty and holds no
    closing bracket.  Links come in the order of the text, without
    overlapping. *)
Theorem find_all_links_well_formed :
  ∀ (content : str) (l : LinkInfo),
    l ∈ ForwardLinks.find_all_links content →
    (start l < end_ l ∧ end_ l ≤ length content)
    ∧ full_match l = take (end_ l - start l) (drop (start l) content)
    ∧ full_match l
      = py "[[" ++ link_path l
          ++ match display_name l with Some d => py "|" ++ d | None => [] end ++ py "]]"
    ∧ link_path l ≠ []
    ∧ Forall (fun x => not_close_or_bar x = true) (link_path l)
    ∧ startswith (py "+") (link_path l) = false
    ∧ (∀ d, display_name l = Some d → d ≠ [] ∧ Forall (fun x => not_close x = true) d)
    ∧ (∀ i j li lj, i < j →
         ForwardLinks.find_all_links content !! i = Some li →
         ForwardLinks.find_all_links content !! j = Some lj →
         end_ li ≤ start lj).
Proof.
  intros content l Hl. unfold ForwardLinks.find_all_links in *.
  destruct (finditer_spans true full_match content content 0 0) as [Hord Hfull];
    [done|lia|lia|].
  simpl in Hord.
  destruct (finditer_matches _ _ _ _ _ Hl) as (s' & Hm & Htext).
  destruct (match_link_shape _ _ _ _ _ Hm) as (Hshape & Hne & Hall & Hplus & Hlabel).
  rewrite Forall_forall in Hfull. specialize (Hfull _ Hl).
  assert (start l < end_ l ∧ end_ l ≤ length content) as Hspan.
  { apply list_elem_of_lookup in Hl as [k Hk].
    clear -Hord Hk. revert Hord Hk. generalize 0 at 1.
    generalize (finditer true 0 0 content). intros links. revert k.
    induction links as [|l' links IH]; intros k from; [done|].
    cbn [map ordered_spans edit_of]. intros (Hs & Hse & Hrest) Hk.
    destruct k as [|k].
    - injection Hk as ->. split; [done|]. by eapply ordered_spans_le.
    - simpl in Hk. by eapply IH. }
  split_and!; try done.
  - apply Hspan.
  - apply Hspan.
  - by rewrite Htext.
  - by apply Hplus.
  - intros i j li lj. by eapply ordered_spans_lookup.
Qed.

Lemma find_all_links_well_formed_witness :
  start (mkLink 4 11 (py "[[t|t]]") (py "t") (Some (py "t"))) < 11 ∧ 11 ≤ 11.
Proof.
  assert (mkLink 4 11 (py "[[t|t]]") (py "t") (Some (py "t"))
          ∈ ForwardLinks.find_all_links (py "see [[t|t]]")) as Hin.
  { vm_compute. left. }
  exact (proj1 (find_all_links_well_formed _ _ Hin)).
Defined.

(** ** The two sections of a file *)

Lemma occurs_at_take (needle s : str) (i j : nat) :
  occurs_at needle (take i s) j → occurs_at needle s j.
Proof.
  intros [Hj [r Hr]]. rewrite length_take in Hj. split; [lia|].
  exists (r ++ drop i s).
  rewrite <- (take_drop i s) at 1. rewrite drop_app_le by (rewrite length_take; lia).
  by rewrite Hr, <- app_assoc.
Qed.

Lemma occurs_at_take_lt (needle s : str) (i j : nat) :
  needle ≠ [] → i ≤ length s → occurs_at needle (take i s) j → j < i.
Proof.
  intros Hne Hi [Hj [r Hr]]. rewrite length_take in Hj.
  assert (length (drop j (take i s)) = length needle + length r) as Hlen
    by (by rewrite Hr, length_app).
  rewrite length_drop, length_take in Hlen.
  destruct needle; [done|]. simpl in Hlen. lia.
Qed.

(** X2: [get_content_section] splits the text in two parts that put back
    together give the text.  The first part never holds the header
    literal, so splitting it again changes nothing; the second part is
    empty, when the text has no header, or starts with the header. *)
Theorem content_section_holds_no_header :
  ∀ content : str,
    let content_section := (ForwardLinks.get_content_section content).1 in
    let backlinks_section := (ForwardLinks.get_content_section content).2 in
    content = content_section ++ backlinks_section
    ∧ find (py "===== Backlinks =====") content_section = None
    ∧ ForwardLinks.get_content_section content_section = (content_section, [])
    ∧ (find (py "===== Backlinks =====") content = None →
       content_section = content ∧ backlinks_section = [])
    ∧ (is_Some (find (py "===== Backlinks =====") content) →
       ∃ rest, backlinks_section = py "===== Backlinks =====" ++ rest).
Proof.
  intros content cs bs.
  assert (find (py "===== Backlinks =====") cs = None) as Hnone.
  { unfold cs, ForwardLinks.get_content_section.
    destruct (find _ content) as [i|] eqn:Hf; simpl; [|done].
    apply find_None. intros j Hj.
    apply find_Some in Hf as [[Hi _] Hmin].
    apply (Hmin j).
    - eapply occurs_at_take_lt; [|exact Hi|exact Hj]. done.
    - by eapply occurs_at_take. }
  split_and!.
  - apply get_content_section_parts.
  - done.
  - unfold ForwardLinks.get_content_section at 1. by rewrite Hnone.
  - intros Hf. unfold cs, bs, ForwardLinks.get_content_section. by rewrite Hf.
  - intros [i Hf]. unfold bs, ForwardLinks.get_content_section. rewrite Hf. simpl.
    by apply find_Some in Hf as [[_ Hr] _].
Qed.

(** ** The name index and the two resolvers *)

Lemma backlinks_build_name_index_eq (files : list Path) :
  Backlinks.build_name_index files = ForwardLinks.build_name_index files.
Proof. reflexivity. Qed.

(** X3: the name index built by either verifier puts each file in the
    bucket of its own short name and in no other.  The bucket of a name is
    the list of the files of that short name, in the order of the listing,
    and is never empty; a name no file has is not a key. *)
Theorem name_index_buckets :
  ∀ (files : list Path) (k : str),
    let index := ForwardLinks.build_name_index files in
    Backlinks.build_name_index files = index
    ∧ (index !! k = None ↔ ∀ f, f ∈ files → stem f ≠ k)
    ∧ (∀ bucket, index !! k = Some bucket →
         bucket ≠ [] ∧ bucket = filter (fun f => stem f = k) files)
    ∧ (∀ f, f ∈ files →
         ∃ bucket, index !! stem f = Some bucket ∧ f ∈ bucket)
    ∧ (∀ f bucket, index !! k = Some bucket → f ∈ bucket → f ∈ files ∧ stem f = k).
Proof.
  intros files k index. unfold index.
  split; [reflexivity|]. split_and!.
  - rewrite build_name_index_lookup.
    destruct (filter _ files) as [|g found] eqn:Hfilter.
    + split; [|done]. intros _ f Hf Hk.
      assert (f ∈ filter (fun f => stem f = k) files) as Hin
        by (apply list_elem_of_filter; done).
      rewrite Hfilter in Hin. by apply elem_of_nil in Hin.
    + split; [done|]. intros Hall. exfalso.
      assert (g ∈ filter (fun f => stem f = k) files) as Hin by (rewrite Hfilter; left).
      apply list_elem_of_filter in Hin as [Hk Hg]. by apply (Hall g).
  - intros bucket. rewrite build_name_index_lookup.
    destruct (filter _ files) as [|g found]; [done|]. by intros [= <-].
  - intros f Hf. rewrite build_name_index_lookup.
    assert (f ∈ filter (fun g => stem g = stem f) files) as Hin
      by (apply list_elem_of_filter; done).
    destruct (filter _ files) as [|g found]; [by apply elem_of_nil in Hin|]. eauto.
  - intros f bucket. rewrite build_name_index_lookup.
    destruct (filter _ files) as [|g found] eqn:Hfilter; [done|].
    intros [= <-] Hin. rewrite <- Hfilter in Hin.
    apply list_elem_of_filter in Hin as [Hk Hf]. done.
Qed.

(** X4: the backlink verifier resolves a link to a file exactly when the
    forward-link verifier calls it Resolved, and then to the same file; a
    link the forward-link verifier finds Ambiguous or Unresolved resolves to
    nothing. *)
Theorem backlink_resolver_agrees_with_forward_resolver :
  ∀ (STRUCTURE_DIR : Path) (exists_ : Path → bool) (link : str) (source_file : Path)
    (name_to_files : gmap str (list Path)),
    (∀ t, Backlinks.resolve_link STRUCTURE_DIR exists_ link source_file name_to_files = Some t
          ↔ ForwardLinks.resolve_link_target STRUCTURE_DIR exists_ link source_file name_to_files
            = ForwardLinks.Resolved t)
    ∧ (Backlinks.resolve_link STRUCTURE_DIR exists_ link source_file name_to_files = None
       ↔ ForwardLinks.resolve_link_target STRUCTURE_DIR exists_ link source_file name_to_files
         = ForwardLinks.Unresolved
         ∨ ∃ candidates,
             ForwardLinks.resolve_link_target STRUCTURE_DIR exists_ link source_file name_to_files
             = ForwardLinks.Ambiguous candidates).
Proof.
  intros root ex link src idx. rewrite resolve_link_agrees.
  destruct (ForwardLinks.resolve_link_target root ex link src idx) as [t'|cands|].
  - split.
    + intros t. split; congruence.
    + split; [done|]. intros [?|[? ?]]; done.
  - split.
    + intros t. split; done.
    + split; [eauto|done].
  - split.
    + intros t. split; done.
    + split; [eauto|done].
Qed.

(** ** Fixing backlinks twice *)

(** The header found first in a file is still the first one after the text
    that follows it was replaced. *)
Lemma find_after_replacing_block (h content body : str) (i : nat) :
  first_occurrence h content i →
  find h (take i content ++ h ++ body) = Some i.
Proof.
  intros [[Hi [rest0 Hrest0]] Hmin]. apply find_Some.
  assert (length (take i content) = i) as Hlen by (rewrite length_take; lia).
  split.
  - split; [rewrite length_app; lia|]. exists body. by rewrite drop_app_length'.
  - intros j Hj [_ [r Hr]]. apply (Hmin j Hj). split; [lia|].
    set (X := drop j (take i content)).
    assert (length h ≤ length (X ++ h)) as Hle by (rewrite length_app; lia).
    assert (h = take (length h) (X ++ h)) as Hh.
    { rewrite drop_app_le in Hr by lia. fold X in Hr.
      apply (f_equal (take (length h))) in Hr.
      rewrite take_app_length in Hr.
      rewrite (app_assoc X h body) in Hr. by rewrite take_app_le in Hr. }
    exists (drop (length h) (X ++ h ++ rest0)).
    rewrite <- (take_drop i content) at 1. rewrite Hrest0.
    rewrite drop_app_le by lia. fold X.
    rewrite <- (take_drop (length h) (X ++ h ++ rest0)) at 1. f_equal.
    rewrite (app_assoc X h rest0). rewrite take_app_le by done. by rewrite <- Hh.
Qed.

(** X5: fixing the backlinks of a file a second time, for the same expected
    sources, changes nothing: the second call returns the same answer and
    leaves the file tree of the first. *)
Theorem fix_backlinks_in_file_idempotent :
  ∀ (STRUCTURE_DIR target_file : Path) (expected_sources : list Path) (fs fs' : FS) (b : bool),
    Backlinks.fix_backlinks_in_file STRUCTURE_DIR target_file expected_sources fs
    = Some (b, fs') →
    Backlinks.fix_backlinks_in_file STRUCTURE_DIR target_file expected_sources fs'
    = Some (b, fs').
Proof.
  intros root target expected fs fs' b. unfold Backlinks.fix_backlinks_in_file.
  destruct (fs !! target) as [content|] eqn:Hread; [|done]. cbn [mbind option_bind].
  destruct (find Backlinks.header content) as [i|] eqn:Hfind.
  - destruct (match expected with [] => _ | _ => _ end) as [nb|] eqn:Hnb; [|done].
    cbn [mbind option_bind]. intros [= <- <-].
    rewrite lookup_insert_eq. cbn [mbind option_bind].
    apply find_Some in Hfind as Hfirst.
    pose proof (find_after_replacing_block _ _ nb _ Hfirst) as Hagain.
    unfold Backlinks.header in Hagain at 2. cbn [py list_ascii_of_string app] in Hagain.
    rewrite Hagain.
    cbn [mbind option_bind].
    rewrite take_app_length' by (destruct Hfirst as [[? _] _]; rewrite length_take; lia).
    by rewrite insert_insert_eq.
  - intros [= <- <-]. rewrite Hread. cbn [mbind option_bind]. by rewrite Hfind.
Qed.

Lemma fix_backlinks_in_file_idempotent_witness :
  Backlinks.fix_backlinks_in_file [py "wiki"] [py "wiki"; py "a"; py "t.txt"]
    [[py "wiki"; py "a"; py "s.txt"]]
    (<[[py "wiki"; py "a"; py "t.txt"] :=
         py "T" ++ ["010"] ++ Backlinks.header ++ py "[[s]]" ++ ["010"]]> stale_sentinel)
  = Some (true,
          <[[py "wiki"; py "a"; py "t.txt"] :=
              py "T" ++ ["010"] ++ Backlinks.header ++ py "[[s]]" ++ ["010"]]> stale_sentinel).
Proof.
  apply fix_backlinks_in_file_idempotent with (fs := stale_sentinel).
  vm_compute. reflexivity.
Defined.

(** ** What the verifiers never do *)

Lemma insert_existing_dom (fs : FS) (p : Path) (old new : str) :
  fs !! p = Some old → dom (<[p := new]> fs) = dom fs.
Proof.
  intros Hp. rewrite dom_insert_L. apply subseteq_union_1_L.
  apply singleton_subseteq_l, elem_of_dom. eauto.
Qed.

Lemma check_and_fix_file_effect (root : Path) (ex : Path → bool) (src : Path)
    (idx : gmap str (list Path)) (fix_mode : bool) (fs fs' : FS) (n k : nat) :
  ForwardLinks.check_and_fix_file root ex src idx fix_mode fs = Some (n, k, fs') →
  dom fs' = dom fs
  ∧ (∀ p, p ≠ src → fs' !! p = fs !! p)
  ∧ (fix_mode = false → fs' = fs).
Proof.
  unfold ForwardLinks.check_and_fix_file.
  destruct (fs !! src) as [content|] eqn:Hread; [|done]. cbn [mbind option_bind].
  destruct (ForwardLinks.get_content_section content) as [cs bs].
  destruct (ForwardLinks.collect_issues root ex src idx _) as [[|i issues]|];
    cbn [mbind option_bind]; [| |done].
  - intros [= <- <- <-]. done.
  - destruct fix_mode.
    + destruct (bool_decide _); intros [= <- <- <-]; [|done].
      split_and!; [by eapply insert_existing_dom| |done].
      intros p Hp. by rewrite lookup_insert_ne.
    + intros [= <- <- <-]. done.
Qed.

Lemma forward_check_all_effect (root : Path) (ex : Path → bool)
    (idx : gmap str (list Path)) (fix_mode : bool) (files : list Path)
    (fs fs' : FS) (a b n k : nat) :
  ForwardLinks.check_all root ex idx fix_mode files a b fs = Some (n, k, fs') →
  dom fs' = dom fs
  ∧ (∀ p, p ∉ files → fs' !! p = fs !! p)
  ∧ (fix_mode = false → fs' = fs).
Proof.
  revert fs a b. induction files as [|f files IH]; intros fs a b; simpl.
  - intros [= <- <- <-]. done.
  - destruct (ForwardLinks.check_and_fix_file root ex f idx fix_mode fs) as [[[i x] fs1]|] eqn:Hone;
      [|done].
    cbn [mbind option_bind].
    destruct (check_and_fix_file_effect _ _ _ _ _ _ _ _ _ Hone) as (Hdom & Hframe & Hro).
    intros Hrest.
    assert (dom fs' = dom fs1 ∧ (∀ p, p ∉ files → fs' !! p = fs1 !! p)
            ∧ (fix_mode = false → fs' = fs1)) as (Hdom' & Hframe' & Hro').
    { destruct (bool_decide (0 < i)); eapply IH; eauto. }
    split_and!.
    + congruence.
    + intros p Hp. rewrite not_elem_of_cons in Hp. destruct Hp as [Hpf Hp].
      rewrite Hframe' by done. by apply Hframe.
    + intros Hf. rewrite Hro', Hro; done.
Qed.

Lemma fix_backlinks_in_file_dom (root target : Path) (expected : list Path)
    (fs fs' : FS) (b : bool) :
  Backlinks.fix_backlinks_in_file root target expected fs = Some (b, fs') →
  dom fs' = dom fs.
Proof.
  unfold Backlinks.fix_backlinks_in_file.
  destruct (fs !! target) as [content|] eqn:Hread; [|done]. cbn [mbind option_bind].
  destruct (find Backlinks.header content); [|by intros [= <- <-]].
  destruct (match expected with [] => _ | _ => _ end); [|done].
  cbn [mbind option_bind]. intros [= <- <-]. by eapply insert_existing_dom.
Qed.

Lemma fix_all_dom (root : Path) (issues : list Backlinks.Issue) (fs fs' : FS) :
  Backlinks.fix_all root issues fs = Some fs' → dom fs' = dom fs.
Proof.
  revert fs. induction issues as [|issue issues IH]; intros fs; simpl.
  - by intros [= <-].
  - destruct (Backlinks.fix_backlinks_in_file root _ _ fs) as [[b fs1]|] eqn:Hfix; [|done].
    cbn [mbind option_bind]. intros Hrest.
    rewrite (IH _ Hrest). by eapply fix_backlinks_in_file_dom.
Qed.

Lemma check_backlinks_file (root : Path) (ex : Path → bool)
    (idx : gmap str (list Path)) (rev : gmap Path (list Path)) (target : Path)
    (fs : FS) (found : list Backlinks.Issue) :
  Backlinks.check_backlinks root ex idx rev target fs = Some found →
  Forall (fun issue => Backlinks.file issue = target) found.
Proof.
  unfold Backlinks.check_backlinks.
  destruct (fs !! target) as [content|]; [|done]. cbn [mbind option_bind].
  destruct (find Backlinks.header content) as [i|].
  - destruct (_ || _); intros [= <-]; repeat constructor.
  - intros [= <-]. constructor.
Qed.

Lemma backlinks_check_all_files (root : Path) (ex : Path → bool)
    (idx : gmap str (list Path)) (rev : gmap Path (list Path)) (files : list Path)
    (fs : FS) (found : list Backlinks.Issue) :
  Backlinks.check_all root ex idx rev files fs = Some found →
  Forall (fun issue => Backlinks.file issue ∈ files) found.
Proof.
  revert found. induction files as [|f files IH]; intros found; simpl.
  - intros [= <-]. constructor.
  - destruct (Backlinks.check_backlinks root ex idx rev f fs) as [here|] eqn:Hhere; [|done].
    cbn [mbind option_bind].
    destruct (Backlinks.check_all root ex idx rev files fs) as [later|]; [|done].
    cbn [mbind option_bind]. intros [= <-]. apply Forall_app. split.
    + eapply Forall_impl; [by eapply check_backlinks_file|].
      intros issue ->. by left.
    + eapply Forall_impl; [by apply IH|]. intros issue Hin. by right.
Qed.

(** X6: without [--fix] neither verifier writes anything: the file tree
    after the run is the tree before it.  With [--fix] both write only to
    files of the listing they were given: every other path keeps its
    content, and no file is created or removed. *)
Theorem verifiers_write_only_listed_files :
  ∀ (STRUCTURE_DIR : Path) (exists_ : Path → bool) (fix_mode : bool)
    (walk : list (Path * list str)) (fs : FS),
    (∀ r, ForwardLinks.main STRUCTURE_DIR exists_ fix_mode walk fs = Some r →
       dom (ForwardLinks.final_fs r) = dom fs
       ∧ (∀ p, p ∉ ForwardLinks.get_all_txt_files walk →
            ForwardLinks.final_fs r !! p = fs !! p)
       ∧ (fix_mode = false → ForwardLinks.final_fs r = fs))
    ∧ (∀ r, Backlinks.main STRUCTURE_DIR exists_ fix_mode walk fs = Some r →
       dom (Backlinks.final_fs r) = dom fs
       ∧ (∀ p, p ∉ Backlinks.get_all_txt_files walk →
            Backlinks.final_fs r !! p = fs !! p)
       ∧ (fix_mode = false → Backlinks.final_fs r = fs)).
Proof.
  intros root ex fix_mode walk fs. split.
  - intros r. unfold ForwardLinks.main.
    destruct (ForwardLinks.check_all _ _ _ _ _ _ _ _) as [[[n k] fs']|] eqn:Hall; [|done].
    cbn [mbind option_bind]. intros [= <-]. simpl.
    destruct (forward_check_all_effect _ _ _ _ _ _ _ _ _ _ _ Hall) as (Hdom & Hframe & Hro).
    split_and!; [done| |done].
    intros p Hp. apply Hframe. by rewrite sorted_perm.
  - intros r. unfold Backlinks.main.
    destruct (Backlinks.build_reverse_links _ _ _ _ _ _) as [rev|]; [|done].
    cbn [mbind option_bind].
    destruct (Backlinks.check_all _ _ _ _ _ _) as [[|issue issues]|] eqn:Hcheck;
      cbn [mbind option_bind]; [| |done].
    + intros [= <-]. done.
    + destruct fix_mode.
      * destruct (Backlinks.fix_all root (issue :: issues) fs) as [fs'|] eqn:Hfix;
          cbn [mbind option_bind]; [|done].
        intros [= <-]. simpl. split_and!; [by eapply fix_all_dom| |done].
        intros p Hp. eapply fix_all_frame; [exact Hfix|].
        eapply Forall_impl; [by eapply backlinks_check_all_files|].
        intros iss Hin Heq. simpl in Hin. rewrite Heq, sorted_perm in Hin. done.
      * cbn [mbind option_bind]. intros [= <-]. done.
Qed.

(** ** What the normalizer leaves alone *)

Lemma filter_none (f : LinkInfo → str) (links : list LinkInfo) :
  Forall (fun m => f m = full_match m) links →
  filter (fun l => f l ≠ full_match l) links = [].
Proof.
  induction 1 as [|m ms Hm _ IH]; [done|].
  rewrite filter_cons_False by tauto. exact IH.
Qed.

(** A replacement that gives back the text of every match gives back the
    whole text. *)
Lemma sub_identity (no_plus : bool) (f : LinkInfo → str) (c : str) :
  Forall (fun m => f m = full_match m) (finditer no_plus 0 0 c) →
  sub no_plus f 0 0 c = c.
Proof.
  intros Hall.
  destruct (finditer_spans no_plus f c c 0 0) as [Hord Hfull]; [done|lia|lia|].
  rewrite (sub_splice no_plus f c c 0 0) by (done || lia). simpl in *.
  rewrite (splice_filter_changed f c 0 (length c)) by done.
  rewrite filter_none by done.
  simpl. apply drop_0.
Qed.

Lemma replace_link_kept (isfile : str → bool) (elements : gmap str str) (m : LinkInfo) :
  kept_link isfile elements m →
  FixAllLinks.replace_link isfile elements m = full_match m.
Proof.
  unfold kept_link, FixAllLinks.replace_link, literal_file.
  intros [Hplus|[[Hq Hfile]|Hnone]].
  - by rewrite Hplus.
  - destruct (startswith (py "+") (link_path m)); [done|]. by rewrite Hq, Hfile.
  - destruct (startswith (py "+") (link_path m)); [done|].
    destruct (contains ":" (link_path m)) eqn:Hq.
    + destruct (isfile _); [done|]. by rewrite Hnone.
    + unfold contains in Hq. apply bool_decide_eq_false in Hq.
      rewrite (split_no_sep _ _ Hq) in Hnone. simpl in Hnone. by rewrite Hnone.
Qed.

(** X7: the normalizer does not write a file in which every link is a
    child-page link, a qualified link whose file exists, or a link whose
    final name is not in the element index; in particular a file without
    links.  [fix_file] then answers [False] and the file tree is as
    before. *)
Theorem fix_file_leaves_kept_links :
  ∀ (isfile : str → bool) (elements : gmap str str) (filepath : str) (fs : SFS)
    (content : str),
    fs !! filepath = Some content →
    Forall (kept_link isfile elements) (finditer false 0 0 content) →
    FixAllLinks.fix_file isfile filepath elements fs = Some (false, fs).
Proof.
  intros isfile elements filepath fs content Hread Hkept.
  unfold FixAllLinks.fix_file. rewrite Hread. cbn [mbind option_bind].
  rewrite sub_identity.
  - destruct (decide (content ≠ content)); done.
  - eapply Forall_impl; [exact Hkept|]. intros m. apply replace_link_kept.
Qed.

Lemma fix_file_leaves_kept_links_witness :
  FixAllLinks.fix_file beside_isfile beside_source ∅ beside_files = Some (false, beside_files).
Proof.
  apply fix_file_leaves_kept_links with (content := py "see [[x]] and [[c:x|x]]").
  - vm_compute. reflexivity.
  - assert (finditer false 0 0 (py "see [[x]] and [[c:x|x]]")
            = [mkLink 4 9 (py "[[x]]") (py "x") None;
               mkLink 14 23 (py "[[c:x|x]]") (py "c:x") (Some (py "x"))]) as ->
      by (vm_compute; reflexivity).
    constructor; [|constructor; [|constructor]].
    + right. right. vm_compute. reflexivity.
    + right. left. split; vm_compute; reflexivity.
Defined.

(** ** The reverse-link index *)

Lemma add_links_spec (root : Path) (ex : Path → bool) (idx : gmap str (list Path))
    (src : Path) (links : list str) (m : gmap Path (list Path)) (t s : Path) :
  s ∈ default [] (Backlinks.add_links root ex idx src links m !! t)
  ↔ s ∈ default [] (m !! t)
    ∨ (s = src ∧ ∃ link, link ∈ links ∧ Backlinks.resolve_link root ex link src idx = Some t).
Proof.
  unfold Backlinks.add_links.
  revert m. induction links as [|link links IH]; intros m.
  - simpl. split; [by left|]. intros [? | (_ & l & Hl & _)]; [done|].
    by apply elem_of_nil in Hl.
  - cbn [foldl]. rewrite IH.
    destruct (Backlinks.resolve_link root ex link src idx) as [t'|] eqn:Hr.
    + destruct (decide (t' = t)) as [->|Hne].
      * rewrite lookup_insert_eq. simpl. rewrite elem_of_app, list_elem_of_singleton.
        split.
        -- intros [[? | ->] | (-> & l & Hl & Hres)]; [by left| |].
           ++ right. split; [done|]. exists link. split; [by left|done].
           ++ right. split; [done|]. exists l. split; [by right|done].
        -- intros [? | (-> & l & [-> | Hl]%elem_of_cons & Hres)]; [by left; left| |].
           ++ left. by right.
           ++ right. split; [done|]. eauto.
      * rewrite lookup_insert_ne by done. split.
        -- intros [? | (-> & l & Hl & Hres)]; [by left|].
           right. split; [done|]. exists l. split; [by right|done].
        -- intros [? | (-> & l & [-> | Hl]%elem_of_cons & Hres)]; [by left|congruence|].
           right. split; [done|]. eauto.
    + split.
      * intros [? | (-> & l & Hl & Hres)]; [by left|].
        right. split; [done|]. exists l. split; [by right|done].
      * intros [? | (-> & l & [-> | Hl]%elem_of_cons & Hres)]; [by left|congruence|].
        right. split; [done|]. eauto.
Qed.

Lemma build_reverse_links_spec (root : Path) (ex : Path → bool)
    (idx : gmap str (list Path)) (files : list Path) (fs : FS)
    (m rev : gmap Path (list Path)) (t s : Path) :
  Backlinks.build_reverse_links root ex idx files fs m = Some rev →
  s ∈ default [] (rev !! t)
  ↔ s ∈ default [] (m !! t)
    ∨ (s ∈ files ∧ ∃ content link,
         fs !! s = Some content ∧ link ∈ Backlinks.extract_links content s
         ∧ Backlinks.resolve_link root ex link s idx = Some t).
Proof.
  revert m. induction files as [|f files IH]; intros m; simpl.
  - intros [= <-]. split; [by left|]. intros [? | [Hs _]]; [done|].
    by apply elem_of_nil in Hs.
  - destruct (fs !! f) as [content|] eqn:Hread; [|done]. cbn [mbind option_bind].
    intros Hrest. rewrite (IH _ Hrest), add_links_spec. split.
    + intros [[? | (-> & link & Hl & Hres)] | (Hs & c & link & Hc & Hl & Hres)].
      * by left.
      * right. split; [by left|]. eauto 6.
      * right. split; [by right|]. eauto 6.
    + intros [? | ([-> | Hs]%elem_of_cons & c & link & Hc & Hl & Hres)].
      * by left; left.
      * left. right. split; [done|]. rewrite Hread in Hc. injection Hc as <-. eauto.
      * right. split; [done|]. eauto 6.
Qed.

(** X8: the reverse-link index the backlink verifier builds lists a source
    under a target exactly when the source is a listed file and some link
    in its content section resolves to that target; links that resolve to
    nothing add nothing. *)
Theorem reverse_links_hold_resolved_links :
  ∀ (STRUCTURE_DIR : Path) (exists_ : Path → bool) (name_to_files : gmap str (list Path))
    (files : list Path) (fs : FS) (reverse_links : gmap Path (list Path)),
    Backlinks.build_reverse_links STRUCTURE_DIR exists_ name_to_files files fs ∅
    = Some reverse_links →
    ∀ target source,
      source ∈ default [] (reverse_links !! target)
      ↔ source ∈ files
        ∧ ∃ content link,
            fs !! source = Some content
            ∧ link ∈ Backlinks.extract_links content source
            ∧ Backlinks.resolve_link STRUCTURE_DIR exists_ link source name_to_files
              = Some target.
Proof.
  intros root ex idx files fs rev Hrev t s.
  rewrite (build_reverse_links_spec _ _ _ _ _ _ _ t s Hrev).
  rewrite lookup_empty. simpl. split.
  - intros [Hs | ?]; [by apply elem_of_nil in Hs|done].
  - by right.
Qed.

Lemma reverse_links_hold_resolved_links_witness :
  [py "wiki"; py "a"; py "s.txt"]
  ∈ default [] (({[ [py "wiki"; py "a"; py "t.txt"] := [[py "wiki"; py "a"; py "s.txt"]] ]}
                 : gmap Path (list Path)) !! [py "wiki"; py "a"; py "t.txt"]).
Proof.
  apply (reverse_links_hold_resolved_links [py "wiki"] small_exists
           (Backlinks.build_name_index (Backlinks.get_all_txt_files small_walk))
           (Backlinks.get_all_txt_files small_walk) stale_sentinel).
  - vm_compute. reflexivity.
  - split; [vm_compute; left|].
    exists (py "see [[t]]"), (py "t"). split_and!.
    + vm_compute. reflexivity.
    + vm_compute. left.
    + vm_compute. reflexivity.
Defined.

(** ** Formatting a link and resolving it again *)

Lemma split_app_sep (c : ascii) (p s : str) :
  c ∉ p → split c (p ++ c :: s) = p :: split c s.
Proof.
  induction p as [|x p IH]; intros Hc; simpl.
  - destruct (decide (c = c)); done.
  - rewrite not_elem_of_cons in Hc. destruct Hc as [Hx Hp].
    destruct (decide (x = c)); [congruence|]. by rewrite IH.
Qed.

(** Splitting at the qualifier undoes joining with it. *)
Lemma split_join (parts : list str) :
  parts ≠ [] → Forall (fun p => ":" ∉ p) parts →
  split ":" (join (py ":") parts) = parts.
Proof.
  induction parts as [|p parts IH]; intros Hne Hall; [done|].
  apply Forall_cons in Hall as [Hp Hall].
  destruct parts as [|q parts].
  - simpl. by apply split_no_sep.
  - change (join (py ":") (p :: q :: parts)) with (p ++ ":" :: join (py ":") (q :: parts)).
    rewrite split_app_sep by done. by rewrite IH.
Qed.

Lemma plain_name_valid (p : str) : plain_name p → valid_filename p ∧ ":" ∉ p.
Proof.
  intros (Hne & Hdot & Hall). rewrite Forall_forall in Hall.
  split; [split_and!; [done| |done]|]; intros Hin; by destruct (Hall _ Hin) as (? & ? & ? & ?).
Qed.

Lemma plain_name_chars (p : str) :
  plain_name p → Forall (fun x => not_close_or_bar x = true) p.
Proof.
  intros (_ & _ & Hall). eapply Forall_impl; [exact Hall|].
  intros x (_ & _ & Hbar & Hclose). unfold not_close_or_bar.
  by rewrite !bool_decide_eq_false_2.
Qed.

Lemma foldl_joinpath_plain (root : Path) (dirs : list str) :
  Forall plain_name dirs → foldl joinpath root dirs = root ++ dirs.
Proof.
  revert root. induction dirs as [|d dirs IH]; intros root Hall; simpl.
  - by rewrite app_nil_r.
  - apply Forall_cons in Hall as [Hd Hall].
    rewrite joinpath_filename by (by apply plain_name_valid).
    rewrite IH by done. by rewrite <- app_assoc.
Qed.

Lemma txt_name_valid (c : str) : plain_name c → valid_filename (c ++ py ".txt").
Proof.
  intros Hc. destruct (plain_name_valid c Hc) as [(Hne & Hsep & _) _]. split_and!.
  - by destruct c.
  - rewrite elem_of_app. intros [?|Hin]; [done|].
    vm_compute in Hin. repeat (apply elem_of_cons in Hin as [Hin|Hin]; [done|]).
    by apply elem_of_nil in Hin.
  - intros Heq. apply (f_equal length) in Heq. rewrite length_app in Heq.
    simpl in Heq. lia.
Qed.

Lemma join_chars (parts : list str) :
  Forall plain_name parts →
  Forall (fun x => not_close_or_bar x = true) (join (py ":") parts).
Proof.
  induction parts as [|p parts IH]; intros Hall; [constructor|].
  apply Forall_cons in Hall as [Hp Hall].
  destruct parts as [|q parts]; [by apply plain_name_chars|].
  change (join (py ":") (p :: q :: parts)) with (p ++ ":" :: join (py ":") (q :: parts)).
  apply Forall_app. split; [by apply plain_name_chars|].
  constructor; [done|]. by apply IH.
Qed.

Lemma join_head (p : str) (parts : list str) :
  p ≠ [] → ∃ x rest, p = x :: rest ∧ ∃ more, join (py ":") (p :: parts) = x :: more.
Proof.
  intros Hp. destruct p as [|x rest]; [done|]. exists x, rest. split; [done|].
  destruct parts; simpl; eauto.
Qed.

(** A well-formed labelled link at the head of the text is matched. *)
Lemma match_link_labelled (no_plus : bool) (target label post : str) :
  target ≠ [] →
  Forall (fun x => not_close_or_bar x = true) target →
  (no_plus = true → startswith (py "+") target = false) →
  label ≠ [] →
  Forall (fun x => not_close x = true) label →
  match_link no_plus (py "[[" ++ target ++ py "|" ++ label ++ py "]]" ++ post)
  = Some (target, Some label, length target + length label + 5).
Proof.
  intros Hne Hall Hplus Hlne Hlall. unfold match_link.
  rewrite startswith_app.
  rewrite (drop_app_length' (py "[[") _ 2) by done.
  replace (no_plus && startswith (py "+") (target ++ py "|" ++ label ++ py "]]" ++ post))
    with false.
  2:{ destruct no_plus; [|done]. simpl. symmetry.
      specialize (Hplus eq_refl). destruct target as [|x t]; [done|].
      simpl in *. done. }
  change (target ++ py "|" ++ label ++ py "]]" ++ post)
    with (target ++ "|" :: (label ++ py "]]" ++ post)).
  rewrite span_stop by done.
  rewrite bool_decide_eq_false_2 by done.
  change (startswith (py "]]") ("|" :: label ++ py "]]" ++ post)) with false.
  change (startswith (py "|") ("|" :: label ++ py "]]" ++ post)) with true.
  cbn match.
  change (drop 1 ("|" :: label ++ py "]]" ++ post)) with (drop 0 (label ++ py "]]" ++ post)).
  rewrite drop_0.
  change (label ++ py "]]" ++ post) with (label ++ "]" :: ("]" :: post)).
  rewrite span_stop by done.
  rewrite bool_decide_eq_false_2 by done.
  change (startswith (py "]]") ("]" :: "]" :: post)) with true.
  cbn match. f_equal. f_equal. lia.
Qed.

Lemma finditer_exhaust (no_plus : bool) (s : str) (skip pos : nat) :
  length s ≤ skip → finditer no_plus skip pos s = [].
Proof.
  revert skip pos. induction s as [|x s IH]; intros skip pos Hlen; [done|].
  simpl in *. destruct skip as [|k]; [lia|]. apply IH. lia.
Qed.

(** A text that is one link, and nothing else, parses to that link. *)
Lemma finditer_single (no_plus : bool) (text p : str) (d : option str) :
  match_link no_plus text = Some (p, d, length text) →
  finditer no_plus 0 0 text = [mkLink 0 (length text) text p d].
Proof.
  intros Hm. destruct text as [|x s]; [apply match_link_length in Hm; simpl in Hm; lia|].
  rewrite (finditer_match _ _ _ _ _ _ _ Hm).
  rewrite finditer_exhaust by (simpl; lia).
  by rewrite firstn_all.
Qed.

Lemma get_correct_link_format_value (root src dirs : Path) (f : str) (label : option str) :
  f ≠ [] → label ≠ Some [] →
  ForwardLinks.get_correct_link_format root src (root ++ dirs ++ [f]) label
  = Some (if decide (parent src = root ++ dirs)
          then (if decide (default (stem_of f) label = stem_of f)
                then py "[[" ++ stem_of f ++ py "]]"
                else py "[[" ++ stem_of f ++ py "|" ++ default (stem_of f) label ++ py "]]")
          else py "[[" ++ join (py ":") (dirs ++ [stem_of f]) ++ py "|"
                 ++ default (stem_of f) label ++ py "]]").
Proof.
  intros Hf Hlabel. unfold ForwardLinks.get_correct_link_format.
  assert (stem (root ++ dirs ++ [f]) = stem_of f) as ->.
  { unfold stem. by rewrite app_assoc, name_snoc. }
  assert (parent (root ++ dirs ++ [f]) = root ++ dirs) as ->.
  { by rewrite app_assoc, parent_snoc. }
  rewrite relative_to_app. cbn [mbind option_bind].
  rewrite with_suffix_empty_snoc by done. cbn [mbind option_bind].
  destruct label as [l|]; simpl.
  - assert (l ≠ []) by congruence.
    rewrite (bool_decide_eq_true_2 (l ≠ [])) by done. simpl.
    destruct (decide (l = stem_of f)) as [->|Hne].
    + rewrite bool_decide_eq_false_2 by tauto.
      destruct (decide (parent src = root ++ dirs)); done.
    + rewrite bool_decide_eq_true_2 by done.
      destruct (decide (parent src = root ++ dirs)); done.
  - destruct (decide (stem_of f = stem_of f)); [|done].
    destruct (decide (parent src = root ++ dirs)); done.
Qed.

Lemma parse_bare_link (target : str) :
  target ≠ [] → Forall (fun x => not_close_or_bar x = true) target →
  startswith (py "+") target = false →
  ForwardLinks.find_all_links (py "[[" ++ target ++ py "]]")
  = [mkLink 0 (length target + 4) (py "[[" ++ target ++ py "]]") target None].
Proof.
  intros Hne Hall Hplus. unfold ForwardLinks.find_all_links.
  pose proof (match_link_bare true target [] Hne Hall (fun _ => Hplus)) as Hm.
  rewrite app_nil_r in Hm.
  assert (length (py "[[" ++ target ++ py "]]") = length target + 4) as Hlen
    by (simpl; rewrite length_app; simpl; lia).
  rewrite <- Hlen in Hm. rewrite (finditer_single _ _ _ _ Hm). by rewrite Hlen.
Qed.

Lemma parse_labelled_link (target label : str) :
  target ≠ [] → Forall (fun x => not_close_or_bar x = true) target →
  startswith (py "+") target = false →
  label ≠ [] → Forall (fun x => not_close x = true) label →
  ForwardLinks.find_all_links (py "[[" ++ target ++ py "|" ++ label ++ py "]]")
  = [mkLink 0 (length target + length label + 5)
       (py "[[" ++ target ++ py "|" ++ label ++ py "]]") target (Some label)].
Proof.
  intros Hne Hall Hplus Hlne Hlall. unfold ForwardLinks.find_all_links.
  pose proof (match_link_labelled true target label [] Hne Hall (fun _ => Hplus) Hlne Hlall)
    as Hm.
  rewrite app_nil_r in Hm.
  assert (length (py "[[" ++ target ++ py "|" ++ label ++ py "]]")
          = length target + length label + 5) as Hlen
    by (simpl; rewrite length_app; simpl; rewrite length_app; simpl; lia).
  rewrite <- Hlen in Hm. rewrite (finditer_single _ _ _ _ Hm). by rewrite Hlen.
Qed.

Lemma resolve_bare_sibling (root : Path) (ex : Path → bool) (src dir : Path) (c : str)
    (idx : gmap str (list Path)) :
  plain_name c → parent src = dir → ex (dir ++ [c ++ py ".txt"]) = true →
  ForwardLinks.resolve_link_target root ex c src idx
  = ForwardLinks.Resolved (dir ++ [c ++ py ".txt"]).
Proof.
  intros Hc Hdir Hex. unfold ForwardLinks.resolve_link_target.
  destruct (plain_name_valid c Hc) as [_ Hq].
  unfold contains. rewrite bool_decide_eq_false_2 by done.
  rewrite Hdir, joinpath_filename by (by apply txt_name_valid). by rewrite Hex.
Qed.

Lemma resolve_qualified_path (root : Path) (ex : Path → bool) (src : Path)
    (dirs : list str) (c : str) (idx : gmap str (list Path)) :
  dirs ≠ [] → Forall plain_name dirs → plain_name c →
  ex (root ++ dirs ++ [c ++ py ".txt"]) = true →
  ForwardLinks.resolve_link_target root ex (join (py ":") (dirs ++ [c])) src idx
  = ForwardLinks.Resolved (root ++ dirs ++ [c ++ py ".txt"]).
Proof.
  intros Hne Hdirs Hc Hex. unfold ForwardLinks.resolve_link_target.
  assert (Forall (fun p => ":" ∉ p) (dirs ++ [c])) as Hq.
  { apply Forall_app. split.
    - eapply Forall_impl; [exact Hdirs|]. intros p Hp. by apply plain_name_valid.
    - constructor; [by apply plain_name_valid|constructor]. }
  assert (contains ":" (join (py ":") (dirs ++ [c])) = true) as ->.
  { unfold contains. apply bool_decide_eq_true.
    destruct dirs as [|d [|d' dirs]]; [done| |].
    - simpl. rewrite elem_of_app. right. by left.
    - change (join (py ":") ((d :: d' :: dirs) ++ [c]))
        with (d ++ ":" :: join (py ":") ((d' :: dirs) ++ [c])).
      rewrite elem_of_app. right. by left. }
  rewrite split_join by (done || by destruct dirs).
  rewrite walk_parts_fold by (lia || by destruct dirs).
  rewrite removelast_last, last_last.
  rewrite foldl_joinpath_plain by done.
  rewrite joinpath_filename by (by apply txt_name_valid).
  rewrite <- app_assoc. by rewrite Hex.
Qed.

(** X9: for a target that sits beside the source, or in a directory below
    the corpus root, and whose directory names and short name are plain (no
    separator, qualifier, bar or bracket, not starting with the child-page
    sigil), the canonical text of the formatter is parsed back as exactly
    one link, and that link resolves to the very same target.  The one case
    left out is a target directly under the root seen from another
    directory. *)
Theorem canonical_link_resolves_back :
  ∀ (STRUCTURE_DIR : Path) (exists_ : Path → bool) (source_file : Path)
    (dirs : list str) (c : str) (label : option str)
    (name_to_files : gmap str (list Path)),
    Forall plain_name dirs →
    plain_name c →
    Forall (fun p => startswith (py "+") p = false) (dirs ++ [c]) →
    (∀ d, label = Some d → d ≠ [] ∧ Forall (fun x => not_close x = true) d) →
    parent source_file = STRUCTURE_DIR ++ dirs ∨ dirs ≠ [] →
    exists_ (STRUCTURE_DIR ++ dirs ++ [c ++ py ".txt"]) = true →
    ∃ text l,
      ForwardLinks.get_correct_link_format STRUCTURE_DIR source_file
        (STRUCTURE_DIR ++ dirs ++ [c ++ py ".txt"]) label = Some text
      ∧ ForwardLinks.find_all_links text = [l]
      ∧ full_match l = text
      ∧ ForwardLinks.resolve_link_target STRUCTURE_DIR exists_ (link_path l) source_file
          name_to_files
        = ForwardLinks.Resolved (STRUCTURE_DIR ++ dirs ++ [c ++ py ".txt"]).
Proof.
  intros root ex src dirs c label idx Hdirs Hc Hplus Hlabel Hwhere Hex.
  pose proof Hc as (Hcne & _ & _).
  assert (label ≠ Some []) as Hl0.
  { intros ->. by destruct (Hlabel [] eq_refl). }
  assert (c ++ py ".txt" ≠ []) as Hf by (by destruct c).
  rewrite (get_correct_link_format_value root src dirs _ label Hf Hl0).
  rewrite stem_of_txt by done.
  assert (default c label ≠ [] ∧ Forall (fun x => not_close x = true) (default c label))
    as [Hsne Hsall].
  { destruct label as [d|]; simpl; [by apply Hlabel|]. split; [done|].
    destruct Hc as (_ & _ & Hall). eapply Forall_impl; [exact Hall|].
    intros x (_ & _ & _ & Hx). unfold not_close. by rewrite bool_decide_eq_false_2. }
  apply Forall_app in Hplus as [Hpdirs Hpc]. apply Forall_cons in Hpc as [Hpc _].
  destruct (decide (parent src = root ++ dirs)) as [Hsame|Hother].
  - assert (ForwardLinks.resolve_link_target root ex c src idx
            = ForwardLinks.Resolved (root ++ dirs ++ [c ++ py ".txt"])) as Hres.
    { rewrite app_assoc. apply resolve_bare_sibling; [done|done|].
      by rewrite <- app_assoc. }
    destruct (decide (default c label = c)).
    + eexists _, _. split; [reflexivity|].
      rewrite parse_bare_link by (done || by apply plain_name_chars).
      split_and!; done.
    + eexists _, _. split; [reflexivity|].
      rewrite parse_labelled_link by (done || by apply plain_name_chars).
      split_and!; done.
  - destruct Hwhere as [?|Hne]; [done|].
    assert (Forall plain_name (dirs ++ [c])) as Hall.
    { apply Forall_app. split; [done|]. by constructor. }
    assert (join (py ":") (dirs ++ [c]) ≠ []
            ∧ startswith (py "+") (join (py ":") (dirs ++ [c])) = false) as [Hjne Hjplus].
    { destruct dirs as [|d dirs]; [done|].
      apply Forall_cons in Hdirs as [(Hdne & _) _].
      apply Forall_cons in Hpdirs as [Hpd _].
      destruct (join_head d (dirs ++ [c]) Hdne) as (x & rest & -> & more & Hj).
      change ((x :: rest) :: dirs) with ([x :: rest] ++ dirs).
      rewrite <- app_assoc. simpl ([x :: rest] ++ dirs ++ [c]).
      rewrite Hj. split; [done|]. exact Hpd. }
    eexists _, _. split; [reflexivity|].
    rewrite parse_labelled_link by (done || by apply join_chars).
    split_and!; [done|done|]. simpl. by apply resolve_qualified_path.
Qed.

Lemma canonical_link_resolves_back_witness :
  ∃ text l,
    ForwardLinks.get_correct_link_format [py "wiki"] [py "wiki"; py "d"; py "s.txt"]
      ([py "wiki"] ++ [py "d"] ++ [py "x" ++ py ".txt"]) None = Some text
    ∧ ForwardLinks.find_all_links text = [l]
    ∧ full_match l = text
    ∧ ForwardLinks.resolve_link_target [py "wiki"] clash_exists (link_path l)
        [py "wiki"; py "d"; py "s.txt"] ∅
      = ForwardLinks.Resolved ([py "wiki"] ++ [py "d"] ++ [py "x" ++ py ".txt"]).
Proof.
  apply (canonical_link_resolves_back [py "wiki"] clash_exists
           [py "wiki"; py "d"; py "s.txt"] [py "d"] (py "x") None ∅).
  - constructor; [|constructor]. split_and!; [discriminate|discriminate|].
    repeat constructor; discriminate.
  - split_and!; [discriminate|discriminate|]. repeat constructor; discriminate.
  - repeat constructor.
  - discriminate.
  - left. reflexivity.
  - vm_compute. reflexivity.
Defined.

(** ** A stale sentinel *)

Lemma expected_sources_members (inbound : list Path) (s : Path) :
  s ∈ sorted_by stem (elements (Backlinks.to_set inbound)) ↔ s ∈ inbound.
Proof.
  rewrite sorted_by_perm, elem_of_elements. unfold Backlinks.to_set.
  by rewrite elem_of_list_to_set.
Qed.

(** X10: a file whose backlinks block holds the sentinel text, while the
    reverse-link index has sources for it, is reported, whatever links the
    block also holds: the check returns one issue for that file, and the
    expected list of the issue holds each source of the index once, in
    ascending order of short names. *)
Theorem stale_sentinel_is_reported :
  ∀ (STRUCTURE_DIR : Path) (exists_ : Path → bool) (name_to_files : gmap str (list Path))
    (reverse_links : gmap Path (list Path)) (target_file : Path) (fs : FS)
    (content : str) (i : nat) (inbound : list Path),
    fs !! target_file = Some content →
    find Backlinks.header content = Some i →
    contains_str (py "no backlinks")
      (lower (strip (drop (i + length Backlinks.header) content))) = true
    ∨ contains_str (py "root production")
        (lower (strip (drop (i + length Backlinks.header) content))) = true →
    reverse_links !! target_file = Some inbound →
    inbound ≠ [] →
    ∃ issue,
      Backlinks.check_backlinks STRUCTURE_DIR exists_ name_to_files reverse_links
        target_file fs = Some [issue]
      ∧ Backlinks.file issue = target_file
      ∧ (∀ s, s ∈ Backlinks.expected issue ↔ s ∈ inbound)
      ∧ NoDup (Backlinks.expected issue)
      ∧ StronglySorted (fun a b => str_leb (stem a) (stem b) = true)
          (Backlinks.expected issue).
Proof.
  intros root ex idx rev target fs content i inbound Hread Hfind Hsentinel Hrev Hne.
  unfold Backlinks.check_backlinks. rewrite Hread. cbn [mbind option_bind].
  rewrite Hfind, Hrev. cbn [default].
  set (expected := sorted_by stem (elements (Backlinks.to_set inbound))).
  assert (Backlinks.to_set expected ≠ ∅) as Hnonempty.
  { destruct inbound as [|s inbound]; [done|].
    intros Hempty. assert (s ∈ Backlinks.to_set expected) as Hin.
    { unfold Backlinks.to_set at 1. apply elem_of_list_to_set.
      apply expected_sources_members. by left. }
    rewrite Hempty in Hin. by apply not_elem_of_empty in Hin. }
  assert ((contains_str (py "no backlinks")
             (lower (strip (drop (i + length Backlinks.header) content)))
           || contains_str (py "root production")
                (lower (strip (drop (i + length Backlinks.header) content)))) = true) as ->.
  { apply orb_true_iff. exact Hsentinel. }
  rewrite (bool_decide_eq_true_2 (Backlinks.to_set expected ≠ ∅)) by done.
  rewrite orb_true_r.
  eexists. split; [reflexivity|]. simpl. split_and!.
  - done.
  - intros s. apply expected_sources_members.
  - unfold expected. rewrite sorted_by_perm. apply NoDup_elements.
  - apply sorted_by_sorted.
Qed.

Lemma stale_sentinel_is_reported_witness :
  ∃ issue,
    Backlinks.check_backlinks [py "wiki"] small_exists
      (Backlinks.build_name_index (Backlinks.get_all_txt_files small_walk))
      {[ [py "wiki"; py "a"; py "t.txt"] := [[py "wiki"; py "a"; py "s.txt"]] ]}
      [py "wiki"; py "a"; py "t.txt"] stale_sentinel = Some [issue]
    ∧ Backlinks.file issue = [py "wiki"; py "a"; py "t.txt"].
Proof.
  destruct (stale_sentinel_is_reported [py "wiki"] small_exists
              (Backlinks.build_name_index (Backlinks.get_all_txt_files small_walk))
              {[ [py "wiki"; py "a"; py "t.txt"] := [[py "wiki"; py "a"; py "s.txt"]] ]}
              [py "wiki"; py "a"; py "t.txt"] stale_sentinel
              (py "T" ++ ["010"] ++ Backlinks.header ++ py "(no backlinks)" ++ ["010"])
              2 [[py "wiki"; py "a"; py "s.txt"]])
    as (issue & Hcheck & Hfile & _).
  - vm_compute. reflexivity.
  - vm_compute. reflexivity.
  - left. vm_compute. reflexivity.
  - vm_compute. reflexivity.
  - discriminate.
  - exists issue. split; [exact Hcheck|exact Hfile].
Defined.
